(** * Post-processing of a rendered PDF: metadata, outline, cover, export

    A shallow embedding of the [PostProcess] class.  The PDF library the
    class drives is represented by the part of its state the class reads and
    writes: the object table with its reference counter, the catalog, the
    document information slots and the page list.  A second part embeds
    the configuration code: page sizes, theme locators and the merging of
    command-line flags with the configuration file. *)

From Stdlib Require Import ZArith Floats.
From Stdlib.Strings Require Import Byte.
From Stdlib.Strings Require Import Ascii.
From stdpp Require Import gmap strings list fin_maps.

Open Scope string_scope.

#[local] Set Warnings "-register-all,-clear-no-such-hyp".

(** ** The object graph *)

(** A reference is an object number and a generation number. *)
Definition PDFRef : Type := nat * nat.

Definition bytes : Type := list byte.

(** Objects stored in dictionaries and in the object table.  The outline
    code writes hex strings (from text), names, numbers (counts) and
    references, and [setLanguage] a literal string; [PDFRaw] stands for
    every other kind of object of a loaded document. *)
Inductive PDFObject : Type :=
| PDFHexString (text : string)
| PDFString (text : string)
| PDFName (name : string)
| PDFNumber (value : nat)
| PDFRefObj (target : PDFRef)
| PDFDict (entries : gmap string PDFObject)
| PDFRaw (raw : bytes).

Record PDFContext : Type := mkPDFContext {
  largestObjectNumber : nat;
  indirectObjects : gmap PDFRef PDFObject
}.

(** [context.nextRef()] of the PDF library: bump the counter, hand out
    generation 0. *)
Definition nextRef (ctx : PDFContext) : PDFRef * PDFContext :=
  let n := S (largestObjectNumber ctx) in
  ((n, 0), mkPDFContext n (indirectObjects ctx)).

(** [context.assign(ref, object)] of the PDF library: define or overwrite
    the object, and keep the counter at least as large as the number. *)
Definition assign (r : PDFRef) (o : PDFObject) (ctx : PDFContext) : PDFContext :=
  mkPDFContext
    (if (largestObjectNumber ctx <? r.1)%nat then r.1 else largestObjectNumber ctx)
    (<[r := o]> (indirectObjects ctx)).

(** JavaScript array read [arr[k]] at an integer index: [undefined] out of
    range, also for a negative index. *)
Definition arr_get {A} (arr : list A) (k : Z) : option A :=
  if (k <? 0)%Z then None else arr !! Z.to_nat k.

(** [items.map(f)] where [f] allocates: the state is threaded left to right. *)
Fixpoint mapS {A B St} (f : A → St → B * St) (l : list A) (s : St) : list B * St :=
  match l with
  | [] => ([], s)
  | x :: l' =>
      let '(y, s1) := f x s in
      let '(ys, s2) := mapS f l' s1 in
      (y :: ys, s2)
  end.

(** [for (const [i, item] of items.entries()) body(i, item)]. *)
Fixpoint forEntries {A St} (body : nat → A → St → St) (i : nat) (l : list A)
  (s : St) : St :=
  match l with
  | [] => s
  | x :: l' => forEntries body (S i) l' (body i x s)
  end.

(** ** Table of contents *)

(** Modelled from the spec: the [TOCItem] interface is declared in the
    broker module, which is not part of the sources at hand.  A TOC node is
    [{ id, title, children }] with [children] an ordered sequence of nodes. *)
Inductive TOCItem : Type := mkTOCItem {
  toc_id : string;
  toc_title : string;
  toc_children : list TOCItem
}.

Inductive PDFTocItem : Type := mkPDFTocItem {
  item_id : string;
  item_title : string;
  children : list PDFTocItem;
  ref : PDFRef;
  parentRef : PDFRef
}.

(** [addRefs] on one item: the item's reference is taken first, then the
    children are annotated with it as their parent. *)
Fixpoint addRefs_item (parent : PDFRef) (item : TOCItem) (ctx : PDFContext)
  {struct item} : PDFTocItem * PDFContext :=
  match item with
  | mkTOCItem i t cs =>
      let '(r, ctx1) := nextRef ctx in
      let '(cs', ctx2) := mapS (addRefs_item r) cs ctx1 in
      (mkPDFTocItem i t cs' r parent, ctx2)
  end.

Definition addRefs (items : list TOCItem) (parent : PDFRef) (ctx : PDFContext)
  : list PDFTocItem * PDFContext :=
  mapS (addRefs_item parent) items ctx.

(** [countAll(item.children)], by recursion on the item. *)
Fixpoint countAll_children (item : PDFTocItem) : nat :=
  match item with
  | mkPDFTocItem _ _ cs _ _ =>
      fold_left (λ sum c, sum + countAll_children c) cs (length cs)
  end.

(** [items.reduce((sum, item) => sum + countAll(item.children), items.length)] *)
Definition countAll (items : list PDFTocItem) : nat :=
  fold_left (λ sum item, sum + countAll_children item) items (length items).

(** [PDFName.of(text)] of the PDF library decodes its argument before
    making the name: [#] followed by two hexadecimal digits (the decimal
    digits and the capitals A to F) stands for the character with that code,
    and everything else is kept.  The scan goes from left to right and does
    not look again at what it has produced. *)
Definition hex_digit (c : Ascii.ascii) : option N :=
  let n := N_of_ascii c in
  if ((48 <=? n) && (n <=? 57))%N then Some (n - 48)%N
  else if ((65 <=? n) && (n <=? 70))%N then Some (n - 55)%N
  else None.

Fixpoint decodeName (name : string) : string :=
  match name with
  | EmptyString => EmptyString
  | String c tail =>
      match tail with
      | String h (String l rest) =>
          match (if decide (c = "#"%char) then hex_digit h else None), hex_digit l with
          | Some a, Some b => String (ascii_of_N (16 * a + b)) (decodeName rest)
          | _, _ => String c (decodeName tail)
          end
      | _ => String c (decodeName tail)
      end
  end.

Definition PDFName_of (text : string) : PDFObject := PDFName (decodeName text).

(** The dictionary [child] built for [item], the [i]-th entry of [items].
    [if (item.children.length)] is the match on the children; in its second
    branch [children[0]] is [c0] and [children[length - 1]] is the last
    element. *)
Definition outlineItemDict (items : list PDFTocItem) (i : nat) (item : PDFTocItem)
  : gmap string PDFObject :=
  let child : gmap string PDFObject := ∅ in
  let child := <["Title" := PDFHexString (item_title item)]> child in
  let child := <["Dest" := PDFName_of (item_id item)]> child in
  let child := <["Parent" := PDFRefObj (parentRef item)]> child in
  let child :=
    match arr_get items (Z.of_nat i - 1) with
    | Some prev => <["Prev" := PDFRefObj (ref prev)]> child
    | None => child
    end in
  let child :=
    match arr_get items (Z.of_nat i + 1) with
    | Some next => <["Next" := PDFRefObj (ref next)]> child
    | None => child
    end in
  match children item with
  | [] => child
  | c0 :: _ =>
      let child := <["First" := PDFRefObj (ref c0)]> child in
      let child :=
        <["Last" := PDFRefObj (ref (List.last (children item) c0))]> child in
      <["Count" := PDFNumber (countAll (children item))]> child
  end.

(** One turn of the loop of [addObjectsToPDF]: build the dictionary, assign
    it to the item's reference, then descend into the children. *)
Fixpoint addObjectsToPDF_entry (items : list PDFTocItem) (i : nat)
  (item : PDFTocItem) (ctx : PDFContext) {struct item} : PDFContext :=
  let ctx1 := assign (ref item) (PDFDict (outlineItemDict items i item)) ctx in
  match item with
  | mkPDFTocItem _ _ cs _ _ => forEntries (addObjectsToPDF_entry cs) 0 cs ctx1
  end.

Definition addObjectsToPDF (items : list PDFTocItem) (ctx : PDFContext) : PDFContext :=
  forEntries (addObjectsToPDF_entry items) 0 items ctx.

(** The outline root dictionary.  [toc] builds it for a non-empty
    sequence only (it has returned before on an empty one), so the first
    branch is never taken there. *)
Definition outlineDict (itemsWithRefs : list PDFTocItem) : gmap string PDFObject :=
  match itemsWithRefs with
  | [] => ∅
  | c0 :: _ =>
      let outline : gmap string PDFObject := ∅ in
      let outline := <["First" := PDFRefObj (ref c0)]> outline in
      let outline :=
        <["Last" := PDFRefObj (ref (List.last itemsWithRefs c0))]> outline in
      <["Count" := PDFNumber (countAll itemsWithRefs)]> outline
  end.

(** ** Documents, pages and the outside world *)

(** JavaScript [Date]: the time value in milliseconds, or [None] for an
    invalid date (time value NaN). *)
Record Date : Type := mkDate { timeValue : option Z }.

(** The document information slots, one per setter of the PDF library
    that writes the information dictionary ([setProducer], [setTitle],
    ...): [None] until the setter is called. *)
Record DocInfo : Type := mkDocInfo {
  Producer : option string;
  Title : option string;
  Author : option string;
  Subject : option string;
  Keywords : option (list string);
  Creator : option string;
  CreationDate : option Date
}.

(** A decoded image: intrinsic width and height (JavaScript numbers). *)
Record PDFImage : Type := mkPDFImage {
  image_width : float;
  image_height : float;
  image_data : bytes
}.

Record ImageSize : Type := mkImageSize { size_width : float; size_height : float }.

(** [image.scale(factor)] *)
Definition scale (image : PDFImage) (factor : float) : ImageSize :=
  mkImageSize (image_width image * factor)%float (image_height image * factor)%float.

Record PDFPage : Type := mkPDFPage {
  page_width : float;
  page_height : float;
  page_images : list (PDFImage * ImageSize)
}.

(** The part of a loaded document the class reads and writes.  In the
    library the catalog and the information dictionary are themselves
    indirect objects, the ones the trailer names as Root and Info; they are
    kept here as fields of their own, and [indirectObjects] holds the other
    objects.  [table_with_catalog] below puts table and catalog together. *)
Record PDFDocument : Type := mkPDFDocument {
  doc_context : PDFContext;
  catalog : gmap string PDFObject;
  info : DocInfo;
  pages : list PDFPage
}.

(** What the program does to the outside world, in order. *)
Inductive Event : Type :=
| ReadFile (path : string)
| WriteFile (path : string) (data : bytes)
| PressReadyBuild (input output : string).

Inductive exn : Type :=
| TypeError
| OutOfRange
| IOError (path : string)
| DecodeError
| BuildError.

Inductive result (A : Type) : Type :=
| Ok (a : A)
| Throw (e : exn).
Arguments Ok {A} a.
Arguments Throw {A} e.

(** The library and operating-system functions the class calls into:
    date parsing, URL parsing, path joining, image decoding, serialization,
    the temporary directory, the UUID generator, file writes and the
    external print-readiness transform.  [url_pathname] is the [pathname]
    of [url.parse], [None] for [null]; URL parsing and path joining are
    taken to return for every string.  [embedPng] and [embedJpg] give the
    decoded image; [embed_objects] is what embedding it does to the object
    table and its counter, and [page_objects] what inserting a page and
    drawing the image on it does to them.  [serialize] gives the bytes of
    [document.save()] and [flushed] the document that call leaves, since
    the library completes pending work on the document before it writes
    the bytes.  [writable] tells whether a write to a path succeeds, and
    [failed_write] what a write that fails leaves in the file system.
    [pressReady_build] is the transform as a whole: whether it succeeds,
    and the file system it leaves behind in either case. *)
Record Platform : Type := mkPlatform {
  parseDate : string → option Z;
  url_pathname : string → option string;
  path_join : string → string → string;
  embedPng : bytes → option PDFImage;
  embedJpg : bytes → option PDFImage;
  embed_objects : PDFImage → PDFContext → PDFContext;
  page_objects : PDFImage → ImageSize → PDFContext → PDFContext;
  serialize : PDFDocument → bytes;
  flushed : PDFDocument → PDFDocument;
  os_tmpdir : string;
  uuid_source : nat → string;
  writable : string → bool;
  failed_write : string → bytes → gmap string bytes → gmap string bytes;
  pressReady_build : string → string → gmap string bytes → bool * gmap string bytes
}.

(** The state a method runs in: the document held by the instance, the
    file system, the number of UUIDs drawn so far and the trace of events. *)
Record State : Type := mkState {
  document : PDFDocument;
  files : gmap string bytes;
  uuid_count : nat;
  trace : list Event
}.

(** State and exception monad; the state survives a throw, as the mutations
    made before an exception do. *)
Definition M (A : Type) : Type := State → result A * State.

#[export] Instance M_ret : MRet M := λ A (a : A) (s : State), (Ok a, s).
#[export] Instance M_bind : MBind M := λ A B (k : A → M B) (m : M A) (s : State),
  match m s with
  | (Ok a, s1) => k a s1
  | (Throw e, s1) => (Throw e, s1)
  end.

Definition throw {A} (e : exn) : M A := λ s, (Throw e, s).

Definition lift_result {A} (x : result A) : M A := λ s, (x, s).

Definition modify_document (f : PDFDocument → PDFDocument) : M unit :=
  λ s, (Ok tt, mkState (f (document s)) (files s) (uuid_count s) (trace s)).

Definition get_document : M PDFDocument := λ s, (Ok (document s), s).

Definition emit (e : Event) : M unit :=
  λ s, (Ok tt, mkState (document s) (files s) (uuid_count s) (trace s ++ [e])).

Definition modify_info (f : DocInfo → DocInfo) : M unit :=
  modify_document (λ d, mkPDFDocument (doc_context d) (catalog d) (f (info d)) (pages d)).

Definition setProducer (x : string) : M unit :=
  modify_info (λ i, mkDocInfo (Some x) (Title i) (Author i) (Subject i)
                      (Keywords i) (Creator i) (CreationDate i)).
Definition setTitle (x : string) : M unit :=
  modify_info (λ i, mkDocInfo (Producer i) (Some x) (Author i) (Subject i)
                      (Keywords i) (Creator i) (CreationDate i)).
Definition setAuthor (x : string) : M unit :=
  modify_info (λ i, mkDocInfo (Producer i) (Title i) (Some x) (Subject i)
                      (Keywords i) (Creator i) (CreationDate i)).
Definition setSubject (x : string) : M unit :=
  modify_info (λ i, mkDocInfo (Producer i) (Title i) (Author i) (Some x)
                      (Keywords i) (Creator i) (CreationDate i)).
Definition setKeywords (x : list string) : M unit :=
  modify_info (λ i, mkDocInfo (Producer i) (Title i) (Author i) (Subject i)
                      (Some x) (Creator i) (CreationDate i)).
Definition setCreator (x : string) : M unit :=
  modify_info (λ i, mkDocInfo (Producer i) (Title i) (Author i) (Subject i)
                      (Keywords i) (Some x) (CreationDate i)).
Definition setCreationDate (x : Date) : M unit :=
  modify_info (λ i, mkDocInfo (Producer i) (Title i) (Author i) (Subject i)
                      (Keywords i) (Creator i) (Some x)).

(** [setLanguage] does not write the information dictionary: it sets the
    entry Lang of the catalog to a literal string. *)
Definition setLanguage (x : string) : M unit :=
  modify_document (λ d,
    mkPDFDocument (doc_context d) (<["Lang" := PDFString x]> (catalog d)) (info d)
      (pages d)).

(** ** Metadata *)

(** Modelled from the spec: the [Meta] type is declared in the broker
    module, which is not part of the sources at hand.  A record maps term
    identifiers to an ordered sequence of entries; an entry has a text [v]
    and an optional qualifier record [r] of the same shape. *)
Inductive MetaValue : Type := mkMetaValue {
  v : string;
  r : option (gmap string (list MetaValue))
}.

Abbreviation Meta := (gmap string (list MetaValue)).

Definition prefixes_dcterms : string := "http://purl.org/dc/terms/".
Definition prefixes_meta : string := "http://idpf.org/epub/vocab/package/meta/#".

Definition metaTerms_title : string := prefixes_dcterms ++ "title".
Definition metaTerms_creator : string := prefixes_dcterms ++ "creator".
Definition metaTerms_description : string := prefixes_dcterms ++ "description".
Definition metaTerms_subject : string := prefixes_dcterms ++ "subject".
Definition metaTerms_contributor : string := prefixes_dcterms ++ "contributor".
Definition metaTerms_language : string := prefixes_dcterms ++ "language".
Definition metaTerms_role : string := prefixes_meta ++ "role".
Definition metaTerms_created : string := prefixes_meta ++ "created".
Definition metaTerms_date : string := prefixes_meta ++ "date".

(** [entries?.[0].v]: [undefined] when the term is missing, a [TypeError]
    when the sequence is there but empty. *)
Definition first_v (entries : option (list MetaValue)) : result (option string) :=
  match entries with
  | None => Ok None
  | Some [] => Throw TypeError
  | Some (x :: _) => Ok (Some (v x))
  end.

(** [if (s) k(s)] for [s : string | undefined]: the empty string is falsy. *)
Definition if_text (s : option string) (k : string → M unit) : M unit :=
  match s with
  | Some x => if decide (x = "") then mret tt else k x
  | None => mret tt
  end.

(** [item.r?.[metaTerms.role]?.[0].v === 'bkp'] *)
Definition is_bkp (item : MetaValue) : result bool :=
  match r item with
  | None => Ok false
  | Some q =>
      match first_v (q !! metaTerms_role) with
      | Throw e => Throw e
      | Ok None => Ok false
      | Ok (Some role) => Ok (bool_decide (role = "bkp"))
      end
  end.

(** [entries.find(p)] for a predicate that may throw. *)
Fixpoint find_result {A} (p : A → result bool) (l : list A) : result (option A) :=
  match l with
  | [] => Ok None
  | x :: l' =>
      match p x with
      | Throw e => Throw e
      | Ok true => Ok (Some x)
      | Ok false => find_result p l'
      end
  end.

(** [tree[metaTerms.contributor]?.find(...)?.v] *)
Definition bkp_contributor (tree : Meta) : result (option string) :=
  match tree !! metaTerms_contributor with
  | None => Ok None
  | Some entries =>
      match find_result is_bkp entries with
      | Throw e => Throw e
      | Ok found => Ok (v <$> found)
      end
  end.

(** [tree[metaTerms.created] || tree[metaTerms.date]]: an array is truthy
    even when empty. *)
Definition created_or_date (tree : Meta) : option (list MetaValue) :=
  match tree !! metaTerms_created with
  | Some entries => Some entries
  | None => tree !! metaTerms_date
  end.

Definition newDate (P : Platform) (text : string) : Date := mkDate (parseDate P text).

Definition metadata (P : Platform) (tree : Meta) : M unit :=
  setProducer "Vivliostyle";;
  title ← lift_result (first_v (tree !! metaTerms_title));
  if_text title setTitle;;
  let author := (λ entries, String.concat "; " (map v entries)) <$> tree !! metaTerms_creator in
  if_text author setAuthor;;
  subject ← lift_result (first_v (tree !! metaTerms_description));
  if_text subject setSubject;;
  let keywords := map v <$> tree !! metaTerms_subject in
  match keywords with Some ks => setKeywords ks | None => mret tt end;;
  creator ← lift_result (bkp_contributor tree);
  if_text creator setCreator;;
  language ← lift_result (first_v (tree !! metaTerms_language));
  if_text language setLanguage;;
  creation ← lift_result (first_v (created_or_date tree));
  if_text creation (λ text, setCreationDate (newDate P text)).

(** ** Outline *)

Definition toc_document (items : list TOCItem) (d : PDFDocument) : PDFDocument :=
  match items with
  | [] => d
  | _ :: _ =>
      let '(outlineRef, ctx1) := nextRef (doc_context d) in
      let '(itemsWithRefs, ctx2) := addRefs items outlineRef ctx1 in
      let ctx3 := addObjectsToPDF itemsWithRefs ctx2 in
      let ctx4 := assign outlineRef (PDFDict (outlineDict itemsWithRefs)) ctx3 in
      mkPDFDocument ctx4 (<["Outlines" := PDFRefObj outlineRef]> (catalog d))
        (info d) (pages d)
  end.

Definition toc (items : list TOCItem) : M unit :=
  modify_document (toc_document items).

(** ** Cover *)

(** Modelled from the spec: the [CoverItem] interface is declared in the
    broker module, which is not part of the sources at hand.  A cover
    descriptor is [{ src, mediaType }]. *)
Record CoverItem : Type := mkCoverItem { src : string; mediaType : string }.

Definition file_contents (path : string) : M bytes :=
  λ s, match files s !! path with
       | Some data => (Ok data, s)
       | None => (Throw (IOError path), s)
       end.

(** [fs.promises.readFile(path)] *)
Definition readFile (path : string) : M bytes :=
  emit (ReadFile path);; file_contents path.

(** [document.embedPng(bytes)] / [document.embedJpg(bytes)]: an error for
    bytes that do not decode; otherwise the decoded image, for which the
    library takes a reference.  What the library does to the object table
    here and when a page is inserted is its own business, and is left to
    the platform.  Pages are kept as a list. *)
Definition embed (P : Platform) (decode : bytes → option PDFImage) (data : bytes)
  : M PDFImage :=
  match decode data with
  | Some image =>
      modify_document (λ d,
        mkPDFDocument (embed_objects P image (doc_context d)) (catalog d) (info d)
          (pages d));;
      mret image
  | None => throw DecodeError
  end.

(** [document.getPage(index)]: the library checks the index against the
    range from 0 to the last index, taking the upper end to be 0 when there
    is no page, and returns [pages[index]].  So [getPage(0)] always returns,
    with [undefined] on a document without pages. *)
Definition getPage (index : nat) : M (option PDFPage) :=
  d ← get_document;
  if (Nat.max 0 (length (pages d) - 1) <? index)%nat then throw OutOfRange
  else mret (pages d !! index).

(** [page.getWidth()]: on [undefined] the call is a [TypeError]. *)
Definition getWidth (page : option PDFPage) : M float :=
  match page with
  | Some p => mret (page_width p)
  | None => throw TypeError
  end.

(** [document.insertPage(0, [width, height])] followed by
    [page.drawImage(image, imageSize)] on the page just inserted. *)
Definition insertCoverPage (P : Platform) (image : PDFImage) (imageSize : ImageSize)
  : M unit :=
  modify_document (λ d,
    let page := mkPDFPage (size_width imageSize) (size_height imageSize)
                  [(image, imageSize)] in
    mkPDFDocument (page_objects P image imageSize (doc_context d)) (catalog d)
      (info d) (page :: pages d)).

Definition drawCover (P : Platform) (image : PDFImage) : M unit :=
  page0 ← getPage 0;
  targetWidth ← getWidth page0;
  let imageSize := scale image (targetWidth / image_width image)%float in
  insertCoverPage P image imageSize.

Definition cover (P : Platform) (c : option CoverItem) (root : string) : M unit :=
  match c with
  | None => mret tt
  | Some cover =>
      match url_pathname P (src cover) with
      | None => mret tt
      | Some pathName =>
          if decide (pathName = "") then mret tt else
          let imagePath := path_join P root pathName in
          if decide (mediaType cover = "image/png") then
            pngBytes ← readFile imagePath;
            image ← embed P (embedPng P) pngBytes;
            drawCover P image
          else if decide (mediaType cover = "image/jpeg") then
            jpgBytes ← readFile imagePath;
            image ← embed P (embedJpg P) jpgBytes;
            drawCover P image
          else mret tt
      end
  end.

(** ** Export *)

Definition uuid (P : Platform) : M string :=
  λ s, (Ok (uuid_source P (uuid_count s)),
        mkState (document s) (files s) (S (uuid_count s)) (trace s)).

Definition store_file (P : Platform) (path : string) (data : bytes) : M unit :=
  λ s, if writable P path
       then (Ok tt, mkState (document s) (<[path := data]> (files s))
                      (uuid_count s) (trace s))
       else (Throw (IOError path),
             mkState (document s) (failed_write P path data (files s))
               (uuid_count s) (trace s)).

(** [fs.promises.writeFile(path, data)] *)
Definition writeFile (P : Platform) (path : string) (data : bytes) : M unit :=
  emit (WriteFile path data);; store_file P path data.

Definition run_build (P : Platform) (input output : string) : M unit :=
  λ s, let built := pressReady_build P input output (files s) in
       (if built.1 then Ok tt else Throw BuildError,
        mkState (document s) built.2 (uuid_count s) (trace s)).

(** [pressReadyModule.build({ input, output })] *)
Definition pressReadyModule_build (P : Platform) (input output : string) : M unit :=
  emit (PressReadyBuild input output);; run_build P input output.

(** The temporary path used when [pressReady] is set. *)
Definition tmp_path (P : Platform) (u : string) : string :=
  path_join P (os_tmpdir P) ("vivliostyle-cli-" ++ u ++ ".pdf").

(** [document.save()] *)
Definition document_save (P : Platform) : M bytes :=
  d ← get_document;
  modify_document (flushed P);;
  mret (serialize P d).

Definition save (P : Platform) (output : string) (pressReady : bool) : M unit :=
  input ← (if pressReady then u ← uuid P; mret (tmp_path P u) else mret output);
  pdf ← document_save P;
  writeFile P input pdf;;
  if pressReady then pressReadyModule_build P input output else mret tt.

(** ** Vocabulary for stating the outline properties *)

(** All nodes of a TOC forest, parents before children. *)
Fixpoint toc_nodes_item (item : TOCItem) : list TOCItem :=
  item :: match item with
          | mkTOCItem _ _ cs => flat_map toc_nodes_item cs
          end.

Definition toc_nodes (items : list TOCItem) : list TOCItem :=
  flat_map toc_nodes_item items.

Fixpoint nodes_of_item (item : PDFTocItem) : list PDFTocItem :=
  item :: match item with
          | mkPDFTocItem _ _ cs _ _ => flat_map nodes_of_item cs
          end.

Definition nodes_of (items : list PDFTocItem) : list PDFTocItem :=
  flat_map nodes_of_item items.

Definition refs_of (items : list PDFTocItem) : list PDFRef :=
  map ref (nodes_of items).

(** Forgetting the references gives back the TOC item. *)
Fixpoint erase (item : PDFTocItem) : TOCItem :=
  match item with
  | mkPDFTocItem i t cs _ _ => mkTOCItem i t (map erase cs)
  end.

(** [Siblings sibs forest]: [sibs] is a children sequence of the forest,
    the top-level sequence included. *)
Inductive Siblings (sibs : list PDFTocItem) : list PDFTocItem → Prop :=
| Siblings_top : Siblings sibs sibs
| Siblings_below (forest : list PDFTocItem) (parent : PDFTocItem) :
    parent ∈ forest → Siblings sibs (children parent) → Siblings sibs forest.

(** [InputSiblings cs items]: [cs] is a children sequence of the TOC tree
    [items] as it was passed in, the top-level sequence included. *)
Inductive InputSiblings (cs : list TOCItem) : list TOCItem → Prop :=
| InputSiblings_top : InputSiblings cs cs
| InputSiblings_below (forest : list TOCItem) (parent : TOCItem) :
    parent ∈ forest → InputSiblings cs (toc_children parent) →
    InputSiblings cs forest.

(** The object table as the library holds it, when the catalog is the
    object at reference [root]. *)
Definition table_with_catalog (root : PDFRef) (d : PDFDocument)
  : gmap PDFRef PDFObject :=
  <[root := PDFDict (catalog d)]> (indirectObjects (doc_context d)).

(** The state reached by a method, and whether it threw. *)
Definition state_after {A} (m : M A) (s : State) : State := (m s).2.
Definition outcome {A} (m : M A) (s : State) : result A := (m s).1.

(** The reference of the outline root and the annotated items, as [toc]
    computes them from the document it is given. *)
Definition outlineRef_of (d : PDFDocument) : PDFRef :=
  (nextRef (doc_context d)).1.

Definition itemsWithRefs_of (items : list TOCItem) (d : PDFDocument) : list PDFTocItem :=
  (addRefs items (outlineRef_of d) (nextRef (doc_context d)).2).1.

(** ** Vocabulary for stating the metadata properties *)

(** The text of the first entry of a term, if the term has one. *)
Definition first_text (entries : option (list MetaValue)) : option string :=
  v <$> (entries ≫= head).

(** A text counts when it is not the empty string. *)
Definition nonempty (text : option string) : option string :=
  match text with
  | Some x => if decide (x = "") then None else Some x
  | None => None
  end.

(** A slot after a conditional setter: the new value if there is one,
    otherwise what the slot held before. *)
Definition set_or_keep {A} (new old : option A) : option A :=
  match new with
  | Some x => Some x
  | None => old
  end.

(** The first role text of a contributor entry. *)
Definition role_text (item : MetaValue) : option string :=
  r item ≫= λ q, first_text (q !! metaTerms_role).

Definition has_bkp_role (item : MetaValue) : bool :=
  bool_decide (role_text item = Some "bkp").

(** The first contributor entry whose role is the book-producer code. *)
Definition first_bkp (tree : Meta) : option MetaValue :=
  tree !! metaTerms_contributor ≫= List.find has_bkp_role.

(** A term that is present has at least one entry. *)
Definition has_first (entries : option (list MetaValue)) : bool :=
  match entries with
  | Some [] => false
  | _ => true
  end.

Definition role_has_first (item : MetaValue) : bool :=
  match r item with
  | Some q => has_first (q !! metaTerms_role)
  | None => true
  end.

(** Every sequence whose first entry [metadata] reads has a first entry.
    [metadata] reads [[0].v] without a guard, so on a record that lists a
    term with no entry at all it stops with a [TypeError]; the properties
    below are about the other records. *)
Definition first_values_exist (tree : Meta) : bool :=
  has_first (tree !! metaTerms_title) &&
  has_first (tree !! metaTerms_description) &&
  forallb role_has_first (default [] (tree !! metaTerms_contributor)) &&
  has_first (tree !! metaTerms_language) &&
  has_first (created_or_date tree).

(** The information slots after [metadata], slot by slot. *)
Definition info_after (P : Platform) (tree : Meta) (i : DocInfo) : DocInfo :=
  mkDocInfo
    (Some "Vivliostyle")
    (set_or_keep (nonempty (first_text (tree !! metaTerms_title))) (Title i))
    (set_or_keep
       (nonempty ((λ entries, String.concat "; " (map v entries))
                    <$> tree !! metaTerms_creator))
       (Author i))
    (set_or_keep (nonempty (first_text (tree !! metaTerms_description))) (Subject i))
    (set_or_keep (map v <$> tree !! metaTerms_subject) (Keywords i))
    (set_or_keep (nonempty (v <$> first_bkp tree)) (Creator i))
    (set_or_keep (newDate P <$> nonempty (first_text (created_or_date tree)))
       (CreationDate i)).

(** The catalog after [metadata]. *)
Definition catalog_after (tree : Meta) (c : gmap string PDFObject)
  : gmap string PDFObject :=
  match nonempty (first_text (tree !! metaTerms_language)) with
  | Some text => <["Lang" := PDFString text]> c
  | None => c
  end.

Definition with_catalog (g : gmap string PDFObject → gmap string PDFObject)
  (s : State) : State :=
  mkState
    (mkPDFDocument (doc_context (document s)) (g (catalog (document s)))
       (info (document s)) (pages (document s)))
    (files s) (uuid_count s) (trace s).

Definition with_info (f : DocInfo → DocInfo) (s : State) : State :=
  mkState
    (mkPDFDocument (doc_context (document s)) (catalog (document s))
       (f (info (document s))) (pages (document s)))
    (files s) (uuid_count s) (trace s).

(** ** Predicates used in the proofs *)

Definition ref_at (n : nat) : PDFRef := (n, 0).

(** What [addRefs] guarantees for a sequence of items. *)
Definition addRefs_post (parent : PDFRef) (l : list TOCItem) (ctx : PDFContext)
  (out : list PDFTocItem * PDFContext) : Prop :=
  map erase out.1 = l ∧
  refs_of out.1 = map ref_at (seq (S (largestObjectNumber ctx)) (length (toc_nodes l))) ∧
  largestObjectNumber out.2 = largestObjectNumber ctx + length (toc_nodes l) ∧
  indirectObjects out.2 = indirectObjects ctx ∧
  Forall (λ x, parentRef x = parent) out.1.

Abbreviation objects_of ctx := (indirectObjects ctx) (only parsing).

(** Only the references of the forest are written. *)
Definition frame_of (item : PDFTocItem) : Prop :=
  ∀ all i0 ctx x, x ∉ refs_of (children item) →
    objects_of (forEntries (addObjectsToPDF_entry all) i0 (children item) ctx) !! x
    = objects_of ctx !! x.

(** What the population phase leaves at the reference of every node. *)
Definition populated (item : PDFTocItem) : Prop :=
  ∀ ctx, NoDup (refs_of (children item)) →
    ∀ sibs j node, Siblings sibs (children item) → sibs !! j = Some node →
      objects_of (addObjectsToPDF (children item) ctx) !! ref node
      = Some (PDFDict (outlineItemDict sibs j node)).

(** Steps that leave the Producer slot alone, whether or not they throw. *)
Definition keeps_Producer {A} (m : M A) : Prop :=
  ∀ s x, Producer (info (document s)) = Some x →
         Producer (info (document (state_after m s))) = Some x.

(** The contributor entries that [find] visits: up to and including the
    first one with the book-producer role. *)
Fixpoint scanned (entries : list MetaValue) : list MetaValue :=
  match entries with
  | [] => []
  | item :: rest => item :: (if has_bkp_role item then [] else scanned rest)
  end.

(** Every first entry that [metadata] actually reads is there. *)
Definition reads_ok (tree : Meta) : bool :=
  has_first (tree !! metaTerms_title) &&
  has_first (tree !! metaTerms_description) &&
  forallb role_has_first (scanned (default [] (tree !! metaTerms_contributor))) &&
  has_first (tree !! metaTerms_language) &&
  has_first (created_or_date tree).

(** The file [cover] reads, if it reads one: the joined path, for a cover
    of supported media type whose src has a non-empty path. *)
Definition cover_image_path (P : Platform) (c : option CoverItem) (root : string)
  : option string :=
  match c with
  | None => None
  | Some item =>
      match url_pathname P (src item) with
      | None => None
      | Some pathName =>
          if bool_decide (pathName ≠ "" ∧
                          (mediaType item = "image/png" ∨
                           mediaType item = "image/jpeg"))
          then Some (path_join P root pathName)
          else None
      end
  end.



(** ** Sample data *)

Definition leaf (name : string) : TOCItem := mkTOCItem name name [].

Definition sample_toc : list TOCItem :=
  [ mkTOCItem "ch1" "One" [leaf "s1"; mkTOCItem "s2" "Two" [leaf "s21"]];
    leaf "ch2" ].

Definition empty_info : DocInfo :=
  mkDocInfo None None None None None None None.

Definition letter_page : PDFPage := mkPDFPage 612 792 [].

Definition sample_document : PDFDocument :=
  mkPDFDocument (mkPDFContext 10 ∅) ∅ empty_info [letter_page].

(** A platform with POSIX-style joining, a decoder that accepts nothing, a
    library that takes one reference for an image and two for a page with
    its content, a fixed UUID and a writable file system. *)
Definition sample_platform : Platform :=
  mkPlatform (λ _, None) (λ s, Some s) (λ a b, a ++ "/" ++ b)
    (λ _, None) (λ _, None)
    (λ _ ctx, (nextRef ctx).2) (λ _ _ ctx, (nextRef (nextRef ctx).2).2)
    (λ _, []) (λ d, d) "/tmp"
    (λ _, "2c5ea4c0-4067-11e9-8bad-9b1deb4d3b7d") (λ _, true) (λ _ _ fs, fs)
    (λ _ _ fs, (true, fs)).

Definition sample_state : State := mkState sample_document ∅ 0 [].

(** A document with objects in its table and entries in its catalog. *)
Definition loaded_document : PDFDocument :=
  mkPDFDocument
    (mkPDFContext 4 {[ (2, 0) := PDFDict {[ "Type" := PDFName "Pages" ]};
                       (3, 0) := PDFRaw [] ]})
    {[ "Type" := PDFName "Catalog"; "Pages" := PDFRefObj (2, 0) ]}
    empty_info [letter_page].

Definition loaded_state : State := mkState loaded_document ∅ 0 [].

(** Metadata records used as examples. *)
Definition entry (text : string) : MetaValue := mkMetaValue text None.

Definition entry_with_role (text role : string) : MetaValue :=
  mkMetaValue text (Some {[ metaTerms_role := [entry role] ]}).

Definition tree_book : Meta :=
  {[ metaTerms_title := [entry "A Book"];
     metaTerms_creator := [entry "X"; entry "Y"];
     metaTerms_subject := [entry "k1"; entry "k2"];
     metaTerms_date := [entry "2020-02-30T99:00"] ]}.

Definition tree_empty_title : Meta := {[ metaTerms_title := [entry ""] ]}.

Definition tree_bkp_first : Meta :=
  {[ metaTerms_contributor := [entry_with_role "A" "bkp"; entry "B"] ]}.

Definition tree_no_bkp : Meta := {[ metaTerms_contributor := [entry "B"] ]}.

Definition tree_bkp_empty_text : Meta :=
  {[ metaTerms_contributor := [entry_with_role "" "bkp"; entry_with_role "B" "bkp"] ]}.

Definition tree_bad_date : Meta := {[ metaTerms_date := [entry "not a date"] ]}.

Definition tree_created_and_date : Meta :=
  {[ metaTerms_created := [entry ""]; metaTerms_date := [entry "2020-01-01"] ]}.

Definition tree_no_title_entry : Meta :=
  {[ metaTerms_title := []; metaTerms_date := [entry "2020-01-01"] ]}.

Definition tree_no_description_entry : Meta :=
  {[ metaTerms_title := [entry "A Book"]; metaTerms_description := [];
     metaTerms_language := [entry "en"] ]}.

(** A platform whose print-readiness transform fails. *)
Definition failing_build_platform : Platform :=
  mkPlatform (λ _, None) (λ s, Some s) (λ a b, a ++ "/" ++ b)
    (λ _, None) (λ _, None)
    (λ _ ctx, (nextRef ctx).2) (λ _ _ ctx, (nextRef (nextRef ctx).2).2)
    (λ _, []) (λ d, d) "/tmp"
    (λ _, "2c5ea4c0-4067-11e9-8bad-9b1deb4d3b7d") (λ _, true) (λ _ _ fs, fs)
    (λ _ _ fs, (false, fs)).

(** A document without pages. *)
Definition empty_document_state : State :=
  mkState (mkPDFDocument (mkPDFContext 10 ∅) ∅ empty_info [])
    {[ "/book/cover.png" := [] ]} 0 [].

(** Covers used as examples: a GIF, and a PNG that decodes to 1120 x 800. *)
Definition gif_cover : CoverItem := mkCoverItem "cover.gif" "image/gif".
Definition png_cover : CoverItem := mkCoverItem "cover.png" "image/png".

Definition cover_platform : Platform :=
  mkPlatform (λ _, None) (λ s, Some s) (λ a b, a ++ "/" ++ b)
    (λ data, Some (mkPDFImage 1120 800 data)) (λ _, None)
    (λ _ ctx, (nextRef ctx).2) (λ _ _ ctx, (nextRef (nextRef ctx).2).2)
    (λ _, []) (λ d, d) "/tmp"
    (λ _, "2c5ea4c0-4067-11e9-8bad-9b1deb4d3b7d") (λ _, true) (λ _ _ fs, fs)
    (λ _ _ fs, (true, fs)).

Definition cover_state : State :=
  mkState sample_document {[ "/book/cover.png" := [] ]} 0 [].

(** The temporary path of the sample platform. *)
Definition sample_tmp_path : string :=
  "/tmp/vivliostyle-cli-2c5ea4c0-4067-11e9-8bad-9b1deb4d3b7d.pdf".

(** ** Configuration: page sizes, themes and merged settings *)

(** What the configuration code throws: an [Error] with its message, or
    whatever a library call raises. *)
Inductive ConfigError : Type :=
| Error (message : string)
| Raised (origin : string).

Inductive Outcome (A : Type) : Type :=
| Returned (a : A)
| Thrown (e : ConfigError).
Arguments Returned {A} a.
Arguments Thrown {A} e.

#[export] Instance Outcome_ret : MRet Outcome := λ A (a : A), Returned a.
#[export] Instance Outcome_bind : MBind Outcome := λ A B (k : A → Outcome B) (m : Outcome A),
  match m with
  | Returned a => k a
  | Thrown e => Thrown e
  end.

(** [s.split(sep)] for a one-character separator: the pieces between the
    separators, in order; there is always at least one piece. *)
Fixpoint split (sep : Ascii.ascii) (s : string) : list string :=
  match s with
  | EmptyString => [""]
  | String c rest =>
      if decide (c = sep) then "" :: split sep rest
      else match split sep rest with
           | piece :: pieces => String c piece :: pieces
           | [] => [String c ""]
           end
  end.

(** [s.endsWith(suffix)] *)
Definition endsWith (s suffix : string) : bool :=
  String.prefix (String.rev suffix) (String.rev s).

(** JavaScript truthiness of [string | undefined]. *)
Definition truthy (s : option string) : bool :=
  match s with
  | Some x => if decide (x = "") then false else true
  | None => false
  end.

(** [a ?? b] *)
Definition nullish {A} (a b : option A) : option A :=
  match a with
  | Some x => Some x
  | None => b
  end.

(** Modelled from the spec: the [PageSize] type is declared in the server
    module, which is not part of the sources at hand; its two shapes are the
    two objects [parsePageSize] returns. *)
Inductive PageSize : Type :=
| SizeFormat (format : string)
| SizeWidthHeight (width height : string).

Definition parsePageSize (size : string) : Outcome PageSize :=
  match split ","%char size with
  | _ :: _ :: _ :: _ => Thrown (Error ("Cannot parse size: " ++ size))
  | [width; height] =>
      if truthy (Some width) && truthy (Some height)
      then Returned (SizeWidthHeight width height)
      else Returned (SizeFormat width)
  | [width] => Returned (SizeFormat width)
  | [] => Returned (SizeFormat "Letter")
  end.

(** A value read from a JSON document where the code expects text: a
    string, [null], or nothing at all. *)
Inductive JsonText : Type :=
| Missing
| JsonNull
| JsonString (text : string).

(** [a ?? b] on such values: [null] and [undefined] give way to [b]. *)
Definition json_nullish (a b : JsonText) : JsonText :=
  match a with
  | JsonString _ => a
  | _ => b
  end.

(** How a template literal prints such a value. *)
Definition json_print (a : JsonText) : string :=
  match a with
  | Missing => "undefined"
  | JsonNull => "null"
  | JsonString text => text
  end.

Inductive ParsedTheme : Type :=
| UriTheme (name location : string)
| FileTheme (name location : string)
| PackageTheme (name : JsonText) (location style : string).

Definition location (theme : ParsedTheme) : string :=
  match theme with
  | UriTheme _ l => l
  | FileTheme _ l => l
  | PackageTheme _ l _ => l
  end.

(** The fields of a [package.json] that [parseStyleLocator] reads:
    [vivliostyle.theme.style], [style], [main], [vivliostyle.theme.stylesheet]
    and [name], each taken to be a string, [null] or missing. *)
Record PackageJson : Type := mkPackageJson {
  pj_theme_style : JsonText;
  pj_style : JsonText;
  pj_main : JsonText;
  pj_theme_stylesheet : JsonText;
  pj_name : JsonText
}.

(** The [name] and [author] of the project's own [package.json]. *)
Record ProjectPackage : Type := mkProjectPackage {
  pkg_name : option string;
  pkg_author : option string
}.

(** The library, file-system and sibling-module functions the
    configuration code calls.  [readPackageJson] is
    [JSON.parse(fs.readFileSync(path, 'utf8'))]; [projectPackage] is the
    outcome of [pkgUp()] followed by [readJSON] ([None] when there is no
    package file); [processMarkdown] and [readHtml] give the title and the
    theme locator found in a source file. *)
Record ConfigPlatform : Type := mkConfigPlatform {
  resolve1 : string → string;
  resolve2 : string → string → string;
  joinPath : string → string → string;
  dirname : string → string;
  basename : string → string;
  relative : string → string → string;
  cwd : string;
  existsSync : string → bool;
  readPackageJson : string → Outcome PackageJson;
  resolvePkg : string → string → option string;
  projectPackage : Outcome (option ProjectPackage);
  processMarkdown : string → Outcome (option string * option string);
  readHtml : string → Outcome (option string * option string);
  executablePath : string
}.

(** [contextResolve(context, loc)]: [loc && path.resolve(context, loc)]. *)
Definition contextResolve (C : ConfigPlatform) (context : string) (loc : option string)
  : option string :=
  match loc with
  | Some l => if decide (l = "") then Some "" else Some (resolve2 C context l)
  | None => None
  end.

Definition parseStyleLocator (C : ConfigPlatform) (pkgRootDir locator : string)
  : Outcome (option (JsonText * string)) :=
  let pkgJsonPath := joinPath C pkgRootDir "package.json" in
  if negb (existsSync C pkgJsonPath) then Returned None else
  packageJson ← readPackageJson C pkgJsonPath;
  let maybeStyle :=
    json_nullish (pj_theme_style packageJson)
      (json_nullish (pj_style packageJson)
         (json_nullish (pj_main packageJson) (pj_theme_stylesheet packageJson))) in
  let invalid :=
    Thrown (Error ("invalid style file: " ++ json_print maybeStyle
                   ++ " while parsing " ++ locator)) in
  match maybeStyle with
  | JsonString style =>
      if decide (style = "") then invalid
      else Returned (Some (pj_name packageJson, style))
  | _ => invalid
  end.

Definition parseTheme (C : ConfigPlatform) (locator : option string) (contextDir : string)
  : Outcome (option ParsedTheme) :=
  match locator with
  | None => Returned None
  | Some locator =>
      if decide (locator = "") then Returned None else
      if String.prefix "http://" locator || String.prefix "https://" locator then
        Returned (Some (UriTheme (basename C locator) locator))
      else
        let stylePath := resolve2 C contextDir locator in
        let pkgRootDir := resolvePkg C locator contextDir in
        let bare := Returned (Some (FileTheme (basename C locator) stylePath)) in
        if negb (from_option (λ d, endsWith d ".css") false pkgRootDir) then
          style ← parseStyleLocator C (default stylePath pkgRootDir) locator;
          match style with
          | Some (name, maybeStyle) =>
              Returned (Some (PackageTheme name (default stylePath pkgRootDir) maybeStyle))
          | None => bare
          end
        else bare
  end.

Inductive EntryType : Type := markdown | html.

Definition parseFileMetadata (C : ConfigPlatform) (type : EntryType) (sourcePath : string)
  : Outcome (option string * option ParsedTheme) :=
  let sourceDir := dirname C sourcePath in
  '(title, locator) ← match type with
                      | markdown => processMarkdown C sourcePath
                      | html => readHtml C sourcePath
                      end;
  theme ← parseTheme C locator sourceDir;
  mret (title, theme).

Record Entry : Type := mkEntry {
  entry_path : string;
  entry_title : option string;
  entry_theme : option string
}.

Record ParsedEntry : Type := mkParsedEntry {
  pe_type : EntryType;
  pe_title : option string;
  pe_theme : option ParsedTheme;
  source_path : string;
  source_dir : string;
  target_path : string;
  target_dir : string
}.

(** [string | boolean] *)
Inductive StringOrBool : Type :=
| IsString (text : string)
| IsBool (flag : bool).

(** [config.entry]: one entry or an array of entries, each a path or an
    [Entry] object. *)
Inductive EntrySetting : Type :=
| OneEntry (e : string + Entry)
| ManyEntries (l : list (string + Entry)).

Record VivliostyleConfig : Type := mkVivliostyleConfig {
  vc_title : option string;
  vc_author : option string;
  vc_theme : option string;
  vc_entry : EntrySetting;
  vc_entryContext : option string;
  vc_size : option string;
  vc_format : option string;
  vc_pressReady : option bool;
  vc_outDir : option string;
  vc_outFile : option string;
  vc_language : option string;
  vc_toc : option StringOrBool;
  vc_cover : option string;
  vc_distDir : option string;
  vc_timeout : option float
}.

Record CliFlags : Type := mkCliFlags {
  cf_input : option string;
  cf_configPath : option string;
  cf_outFile : option string;
  cf_outDir : option string;
  cf_theme : option string;
  cf_size : option string;
  cf_pressReady : option bool;
  cf_title : option string;
  cf_author : option string;
  cf_language : option string;
  cf_verbose : option bool;
  cf_distDir : option string;
  cf_timeout : option float;
  cf_sandbox : option bool;
  cf_executableChromium : option string;
  cf_cover : option StringOrBool
}.

Record MergedConfig : Type := mkMergedConfig {
  entryContextDir : string;
  artifactDir : string;
  distDir : string;
  outputPath : string;
  entries : list ParsedEntry;
  themeIndexes : list ParsedTheme;
  mc_pressReady : bool;
  mc_size : option PageSize;
  projectTitle : string;
  projectAuthor : option string;
  mc_language : string;
  mc_toc : StringOrBool;
  mc_cover : StringOrBool;
  mc_format : string;
  mc_verbose : bool;
  mc_timeout : float;
  mc_sandbox : bool;
  executableChromium : string
}.

(** [2 * 60 * 1000] *)
Definition DEFAULT_TIMEOUT : float := 120000%float.

(** [normalizeEntry] *)
Definition normalizeEntry (e : string + Entry) : Entry :=
  match e with
  | inr entry => entry
  | inl path => mkEntry path None None
  end.

(** [s.replace(/\.md$/, '.html')] *)
Definition replace_md (s : string) : string :=
  if endsWith s ".md"
  then String.substring 0 (String.length s - 3) s ++ ".html"
  else s.

(** The inner function [parseEntry]; the list of themes found so far is
    threaded through, as the closure appends to [themeIndexes]. *)
Definition parseEntry (C : ConfigPlatform) (entryContextDir artifactDir : string)
  (projectTitle : string) (entry : Entry) (themeIndexes : list ParsedTheme)
  : Outcome (ParsedEntry * list ParsedTheme) :=
  let sourcePath := resolve2 C entryContextDir (entry_path entry) in
  let sourceDir := dirname C sourcePath in
  let contextEntryPath := relative C entryContextDir sourcePath in
  let targetPath := replace_md (resolve2 C artifactDir contextEntryPath) in
  let targetDir := dirname C targetPath in
  let type := if endsWith sourcePath ".html" then html else markdown in
  metadata ← parseFileMetadata C type sourcePath;
  let title := nullish (entry_title entry) (nullish metadata.1 (Some projectTitle)) in
  own ← parseTheme C (entry_theme entry) sourceDir;
  let theme := nullish own (nullish metadata.2 (head themeIndexes)) in
  let themeIndexes :=
    match theme with
    | Some t =>
        if forallb (λ known, negb (bool_decide (location known = location t))) themeIndexes
        then (themeIndexes ++ [t])%list
        else themeIndexes
    | None => themeIndexes
    end in
  Returned (mkParsedEntry type title theme sourcePath sourceDir targetPath targetDir,
            themeIndexes).

(** [rawEntries.map(parseEntry)], left to right. *)
Fixpoint parseEntries (C : ConfigPlatform) (entryContextDir artifactDir : string)
  (projectTitle : string) (raw : list Entry) (themeIndexes : list ParsedTheme)
  : Outcome (list ParsedEntry * list ParsedTheme) :=
  match raw with
  | [] => Returned ([], themeIndexes)
  | entry :: rest =>
      '(parsed, themeIndexes) ←
        parseEntry C entryContextDir artifactDir projectTitle entry themeIndexes;
      '(others, themeIndexes) ←
        parseEntries C entryContextDir artifactDir projectTitle rest themeIndexes;
      Returned (parsed :: others, themeIndexes)
  end.

(** The entries [mergeConfig] starts from. *)
Definition rawEntries (cliFlags : CliFlags) (config : option VivliostyleConfig)
  : list (string + Entry) :=
  if truthy (cf_input cliFlags) then [inl (default "" (cf_input cliFlags))] else
  match config with
  | Some c =>
      match vc_entry c with
      | ManyEntries l => l
      | OneEntry (inl path) => if truthy (Some path) then [inl path] else []
      | OneEntry (inr e) => [inr e]
      end
  | None => []
  end.

(** The test [/^https?:\/\//] of [parseTheme]. *)
Definition is_url (locator : string) : bool :=
  String.prefix "http://" locator || String.prefix "https://" locator.

(** The number of occurrences of a character in a string. *)
Fixpoint count_char (c : Ascii.ascii) (s : string) : nat :=
  match s with
  | EmptyString => 0
  | String a rest => (if decide (a = c) then 1 else 0) + count_char c rest
  end.

(** The settings [mergeConfig] chooses between, as it computes them. *)
Definition chosen_title (cliFlags : CliFlags) (config : option VivliostyleConfig)
  (pkgJson : option ProjectPackage) : option string :=
  nullish (cf_title cliFlags) (nullish (config ≫= vc_title) (pkgJson ≫= pkg_name)).

Definition chosen_outDir (C : ConfigPlatform) (cliFlags : CliFlags)
  (config : option VivliostyleConfig) (context : string) : option string :=
  nullish (cf_outDir cliFlags) (contextResolve C context (config ≫= vc_outDir)).

Definition chosen_outFile (C : ConfigPlatform) (cliFlags : CliFlags)
  (config : option VivliostyleConfig) (context : string) : option string :=
  nullish (cf_outFile cliFlags) (contextResolve C context (config ≫= vc_outFile)).

(** A platform and inputs used as examples. *)
Definition sample_config_platform : ConfigPlatform :=
  mkConfigPlatform (λ p, "/work/" ++ p) (λ a b, a ++ "/" ++ b) (λ a b, a ++ "/" ++ b)
    (λ p, p) (λ p, p) (λ _ p, p) "/work" (λ _, false)
    (λ _, Thrown (Raised "readFileSync")) (λ _ _, None)
    (Returned (Some (mkProjectPackage (Some "book") None)))
    (λ _, Returned (None, None)) (λ _, Returned (None, None)) "/usr/bin/chromium".

Definition no_flags : CliFlags :=
  mkCliFlags None None None None None None None None None None None None None None
    None None.

Definition flags_outDir_outFile : CliFlags :=
  mkCliFlags None None (Some "out.pdf") (Some "dist") None None None None None None
    None None None None None None.

Definition flags_empty_title : CliFlags :=
  mkCliFlags None None None None None None None (Some "") None None None None None
    None None None.

Definition flags_input_theme : CliFlags :=
  mkCliFlags (Some "ch1.md") None None None (Some "style.css") None None None None None
    None None None None None None.

Definition config_two_entries : VivliostyleConfig :=
  mkVivliostyleConfig (Some "Config title") None (Some "base.css")
    (ManyEntries [inl "a.md"; inr (mkEntry "b.html" (Some "B") (Some "base.css"))])
    None None None None None None None None None None None.

(** A platform on which every directory holds a [package.json] whose first
    style field is the empty string. *)
Definition empty_style_platform : ConfigPlatform :=
  mkConfigPlatform (λ p, "/work/" ++ p) (λ a b, a ++ "/" ++ b) (λ a b, a ++ "/" ++ b)
    (λ p, p) (λ p, p) (λ _ p, p) "/work" (λ _, true)
    (λ _, Returned (mkPackageJson (JsonString "") Missing (JsonString "main.css")
                      Missing (JsonString "theme")))
    (λ _ _, None)
    (Returned (Some (mkProjectPackage (Some "book") None)))
    (λ _, Returned (None, None)) (λ _, Returned (None, None)) "/usr/bin/chromium".

(** [mergeConfig]; its [debug] calls only print and are left out. *)
Definition mergeConfig (C : ConfigPlatform) (cliFlags : CliFlags)
  (config : option VivliostyleConfig) (context : string) : Outcome MergedConfig :=
  pkgJson ← projectPackage C;
  let projectTitle :=
    nullish (cf_title cliFlags)
      (nullish (config ≫= vc_title) (pkgJson ≫= pkg_name)) in
  if negb (truthy projectTitle) then Thrown (Error "title not defined") else
  let projectTitle := default "" projectTitle in
  let projectAuthor :=
    nullish (cf_author cliFlags)
      (nullish (config ≫= vc_author) (pkgJson ≫= pkg_author)) in
  let entryContextDir :=
    resolve1 C
      (if truthy (cf_input cliFlags) then "."
       else default "." (contextResolve C context (config ≫= vc_entryContext))) in
  let distDir :=
    resolve1 C
      (default ".vivliostyle"
         (nullish (cf_distDir cliFlags)
            (contextResolve C context (config ≫= vc_distDir)))) in
  let artifactDir := joinPath C distDir "artifacts" in
  let format := default "pdf" (config ≫= vc_format) in
  let outDir := nullish (cf_outDir cliFlags) (contextResolve C context (config ≫= vc_outDir)) in
  let outFile :=
    nullish (cf_outFile cliFlags) (contextResolve C context (config ≫= vc_outFile)) in
  if truthy outDir && truthy outFile
  then Thrown (Error "outDir and outFile cannot be combined.") else
  let outputFile := projectTitle ++ "." ++ format in
  let outputPath :=
    if truthy outDir then resolve2 C (default "" outDir) outputFile
    else default (resolve1 C outputFile) outFile in
  let language := default "en" (config ≫= vc_language) in
  let sizeFlag := nullish (cf_size cliFlags) (config ≫= vc_size) in
  size ← (if truthy sizeFlag
          then parsed ← parsePageSize (default "" sizeFlag); Returned (Some parsed)
          else Returned None);
  let toc :=
    match config ≫= vc_toc with
    | Some (IsString t) => IsString (default "" (contextResolve C context (Some t)))
    | Some (IsBool b) => IsBool b
    | None => IsBool false
    end in
  let coverFlag := nullish (cf_cover cliFlags) (IsString <$> (config ≫= vc_cover)) in
  let cover :=
    match coverFlag with
    | Some (IsString c) => IsString (default "" (contextResolve C context (Some c)))
    | Some (IsBool b) => IsBool b
    | None => IsBool false
    end in
  let pressReady :=
    default false (nullish (cf_pressReady cliFlags) (config ≫= vc_pressReady)) in
  let verbose := default false (cf_verbose cliFlags) in
  let timeout :=
    default DEFAULT_TIMEOUT (nullish (cf_timeout cliFlags) (config ≫= vc_timeout)) in
  let sandbox := default true (cf_sandbox cliFlags) in
  let executableChromium :=
    default (executablePath C) (cf_executableChromium cliFlags) in
  fromFlags ← parseTheme C (cf_theme cliFlags) (cwd C);
  rootTheme ← match fromFlags with
              | Some t => Returned (Some t)
              | None => parseTheme C (config ≫= vc_theme) context
              end;
  let themeIndexes := option_list rootTheme in
  '(entries, themeIndexes) ←
    parseEntries C entryContextDir artifactDir projectTitle
      (map normalizeEntry (rawEntries cliFlags config)) themeIndexes;
  Returned
    (mkMergedConfig entryContextDir artifactDir distDir outputPath entries themeIndexes
       pressReady size projectTitle projectAuthor language toc cover format verbose
       timeout sandbox executableChromium).

(** ** Induction over trees *)

Section tree_induction.
Variable P : PDFTocItem → Prop.
Hypothesis step : ∀ i t cs r p, Forall P cs → P (mkPDFTocItem i t cs r p).

Fixpoint PDFTocItem_forall_ind (item : PDFTocItem) : P item :=
  match item with
  | mkPDFTocItem i t cs r p =>
      step i t cs r p
        ((fix go (l : list PDFTocItem) : Forall P l :=
            match l with
            | [] => List.Forall_nil P
            | x :: l' => List.Forall_cons P x l' (PDFTocItem_forall_ind x) (go l')
            end) cs)
  end.
End tree_induction.

Section toc_induction.
Variable P : TOCItem → Prop.
Hypothesis step : ∀ i t cs, Forall P cs → P (mkTOCItem i t cs).

Fixpoint TOCItem_forall_ind (item : TOCItem) : P item :=
  match item with
  | mkTOCItem i t cs =>
      step i t cs
        ((fix go (l : list TOCItem) : Forall P l :=
            match l with
            | [] => List.Forall_nil P
            | x :: l' => List.Forall_cons P x l' (TOCItem_forall_ind x) (go l')
            end) cs)
  end.
End toc_induction.

(** ** Counting *)

Lemma fold_left_add_shift {A} (f : A → nat) (l : list A) (a : nat) :
  fold_left (λ sum x, sum + f x) l a = a + fold_left (λ sum x, sum + f x) l 0.
Proof.
  revert a. induction l as [|x l IH]; intros a; simpl; [lia|].
  rewrite (IH (a + f x)), (IH (f x)). lia.
Qed.

Lemma countAll_cons (item : PDFTocItem) (items : list PDFTocItem) :
  countAll (item :: items) = S (countAll_children item) + countAll items.
Proof.
  unfold countAll. simpl.
  rewrite fold_left_add_shift, (fold_left_add_shift _ items (length items)). lia.
Qed.

Lemma countAll_children_eq (item : PDFTocItem) :
  countAll_children item = countAll (children item).
Proof. destruct item; reflexivity. Qed.

Lemma nodes_of_cons (item : PDFTocItem) (items : list PDFTocItem) :
  nodes_of (item :: items) = item :: nodes_of (children item) ++ nodes_of items.
Proof. destruct item; reflexivity. Qed.

Lemma countAll_nodes_item (item : PDFTocItem) :
  countAll (children item) = length (nodes_of (children item)).
Proof.
  induction item as [i t cs r p IH] using PDFTocItem_forall_ind. simpl.
  induction IH as [|c cs Hc _ IHcs]; [reflexivity|].
  rewrite countAll_cons, nodes_of_cons, countAll_children_eq, Hc, IHcs.
  simpl. rewrite length_app. lia.
Qed.

Lemma countAll_nodes (items : list PDFTocItem) :
  countAll items = length (nodes_of items).
Proof.
  induction items as [|c cs IH]; [reflexivity|].
  rewrite countAll_cons, nodes_of_cons, countAll_children_eq, countAll_nodes_item, IH.
  simpl. rewrite length_app. lia.
Qed.

(** ** Allocation phase *)

Lemma toc_nodes_cons (item : TOCItem) (items : list TOCItem) :
  toc_nodes (item :: items) = item :: toc_nodes (toc_children item) ++ toc_nodes items.
Proof. destruct item; reflexivity. Qed.

Lemma addRefs_item_unfold (parent : PDFRef) (item : TOCItem) (ctx : PDFContext) :
  addRefs_item parent item ctx =
  let r := ref_at (S (largestObjectNumber ctx)) in
  let out := addRefs (toc_children item) r (nextRef ctx).2 in
  (mkPDFTocItem (toc_id item) (toc_title item) out.1 r parent, out.2).
Proof.
  destruct item as [i t cs]. simpl. unfold addRefs.
  destruct (mapS _ cs _) as [cs' ctx2]. reflexivity.
Qed.

Lemma addRefs_cons (parent : PDFRef) (item : TOCItem) (items : list TOCItem)
  (ctx : PDFContext) :
  addRefs (item :: items) parent ctx =
  let o1 := addRefs_item parent item ctx in
  let o2 := addRefs items parent o1.2 in
  (o1.1 :: o2.1, o2.2).
Proof.
  unfold addRefs. simpl.
  destruct (addRefs_item parent item ctx) as [x c1]. simpl.
  destruct (mapS _ items c1) as [xs c2]. reflexivity.
Qed.

Lemma seq_split_tail (a n m : nat) :
  seq a (S (n + m)) = a :: seq (S a) n ++ seq (S a + n) m.
Proof. simpl. f_equal. apply seq_app. Qed.

Lemma addRefs_sequence (l : list TOCItem) :
  Forall (λ item, ∀ parent ctx,
            addRefs_post parent (toc_children item) ctx
              (addRefs (toc_children item) parent ctx)) l →
  ∀ parent ctx, addRefs_post parent l ctx (addRefs l parent ctx).
Proof.
  induction 1 as [|item items Hitem _ IH]; intros parent ctx.
  { repeat split; simpl; auto with lia. }
  rewrite addRefs_cons, addRefs_item_unfold. cbn zeta.
  pose proof (Hitem (ref_at (S (largestObjectNumber ctx))) (nextRef ctx).2) as H1.
  destruct (addRefs (toc_children item) _ (nextRef ctx).2) as [cs' c1].
  pose proof (IH parent c1) as H2. simpl fst. simpl snd.
  destruct (addRefs items parent c1) as [xs c2].
  destruct H1 as (He1 & Hr1 & Hn1 & Ho1 & Hp1).
  destruct H2 as (He2 & Hr2 & Hn2 & Ho2 & Hp2).
  unfold addRefs_post. cbn [fst snd nextRef largestObjectNumber indirectObjects] in *.
  repeat split.
  - simpl. rewrite He1, He2. destruct item; reflexivity.
  - unfold refs_of in *. rewrite nodes_of_cons, toc_nodes_cons. simpl children.
    simpl length. rewrite length_app, seq_split_tail.
    simpl. rewrite !map_app, Hr1, Hr2, Hn1. reflexivity.
  - rewrite Hn2, Hn1, toc_nodes_cons. simpl. rewrite length_app. lia.
  - rewrite Ho2, Ho1. reflexivity.
  - constructor; [reflexivity | exact Hp2].
Qed.

Lemma addRefs_spec (l : list TOCItem) (parent : PDFRef) (ctx : PDFContext) :
  addRefs_post parent l ctx (addRefs l parent ctx).
Proof.
  revert parent ctx. apply addRefs_sequence.
  induction l as [|item items IH]; constructor; [|exact IH].
  clear IH items. induction item as [i t cs Hcs] using TOCItem_forall_ind.
  simpl. apply addRefs_sequence. exact Hcs.
Qed.

Lemma refs_of_addRefs_NoDup (l : list TOCItem) (parent : PDFRef) (ctx : PDFContext) :
  NoDup (refs_of (addRefs l parent ctx).1).
Proof.
  destruct (addRefs_spec l parent ctx) as (_ & -> & _).
  apply NoDup_fmap_2; [|apply NoDup_seq].
  intros a b [=]. assumption.
Qed.

Lemma refs_of_addRefs_above (l : list TOCItem) (parent : PDFRef) (ctx : PDFContext)
  (x : PDFRef) :
  x ∈ refs_of (addRefs l parent ctx).1 → largestObjectNumber ctx < x.1.
Proof.
  destruct (addRefs_spec l parent ctx) as (_ & -> & _).
  intros (n & -> & Hn)%list_elem_of_fmap. apply elem_of_seq in Hn. simpl. lia.
Qed.

(** ** Population phase *)

Lemma addObjectsToPDF_entry_unfold (items : list PDFTocItem) (i : nat)
  (item : PDFTocItem) (ctx : PDFContext) :
  addObjectsToPDF_entry items i item ctx =
  addObjectsToPDF (children item)
    (assign (ref item) (PDFDict (outlineItemDict items i item)) ctx).
Proof. destruct item; reflexivity. Qed.

Lemma assign_lookup_ne (x y : PDFRef) (o : PDFObject) (ctx : PDFContext) :
  x ≠ y → objects_of (assign x o ctx) !! y = objects_of ctx !! y.
Proof. intros Hne. unfold assign. simpl. by rewrite lookup_insert_ne. Qed.

Lemma assign_lookup_eq (x : PDFRef) (o : PDFObject) (ctx : PDFContext) :
  objects_of (assign x o ctx) !! x = Some o.
Proof. unfold assign. simpl. by rewrite lookup_insert_eq. Qed.

Lemma refs_of_cons (item : PDFTocItem) (items : list PDFTocItem) :
  refs_of (item :: items) = ref item :: refs_of (children item) ++ refs_of items.
Proof. unfold refs_of. rewrite nodes_of_cons. simpl. by rewrite map_app. Qed.

Lemma forEntries_frame (l : list PDFTocItem) :
  Forall frame_of l →
  ∀ all i0 ctx x, x ∉ refs_of l →
    objects_of (forEntries (addObjectsToPDF_entry all) i0 l ctx) !! x
    = objects_of ctx !! x.
Proof.
  induction 1 as [|item items Hitem _ IH]; intros all i0 ctx x Hx; [reflexivity|].
  rewrite refs_of_cons in Hx. simpl.
  rewrite IH by set_solver.
  rewrite addObjectsToPDF_entry_unfold. unfold addObjectsToPDF.
  rewrite Hitem by set_solver.
  apply assign_lookup_ne. set_solver.
Qed.

Lemma frame_of_all (item : PDFTocItem) : frame_of item.
Proof.
  induction item as [i t cs r p IH] using PDFTocItem_forall_ind.
  unfold frame_of. simpl. apply forEntries_frame, IH.
Qed.

Lemma addObjectsToPDF_frame (l all : list PDFTocItem) (i0 : nat) (ctx : PDFContext)
  (x : PDFRef) :
  x ∉ refs_of l →
  objects_of (forEntries (addObjectsToPDF_entry all) i0 l ctx) !! x
  = objects_of ctx !! x.
Proof. apply forEntries_frame, Forall_forall. intros; apply frame_of_all. Qed.

Lemma Siblings_ref_in (sibs forest : list PDFTocItem) (i : nat) (node : PDFTocItem) :
  Siblings sibs forest → sibs !! i = Some node → ref node ∈ refs_of forest.
Proof.
  induction 1 as [|forest parent Hin _ IH]; intros Hi.
  - revert i Hi. induction sibs as [|c cs IHc]; intros [|i] Hi; simplify_eq/=.
    + rewrite refs_of_cons. set_solver.
    + rewrite refs_of_cons. specialize (IHc _ Hi). set_solver.
  - specialize (IH Hi). clear Hi.
    induction Hin as [parent rest|c parent rest _ IHin];
      rewrite refs_of_cons; set_solver.
Qed.

Lemma forEntries_populated (l : list PDFTocItem) :
  Forall populated l →
  ∀ all i0 ctx, NoDup (refs_of l) →
    (∀ k node, l !! k = Some node →
       objects_of (forEntries (addObjectsToPDF_entry all) i0 l ctx) !! ref node
       = Some (PDFDict (outlineItemDict all (i0 + k) node))) ∧
    (∀ c sibs j node, c ∈ l → Siblings sibs (children c) → sibs !! j = Some node →
       objects_of (forEntries (addObjectsToPDF_entry all) i0 l ctx) !! ref node
       = Some (PDFDict (outlineItemDict sibs j node))).
Proof.
  induction 1 as [|item items Hitem _ IH]; intros all i0 ctx Hnd.
  { split; [intros k node Hk | intros c sibs j node Hc]; [done | set_solver]. }
  rewrite refs_of_cons in Hnd.
  apply NoDup_cons in Hnd as [Hhead Hnd].
  apply NoDup_app in Hnd as (Hnd1 & Hdisj & Hnd2).
  assert (Hhead1 : ref item ∉ refs_of (children item)) by set_solver.
  assert (Hhead2 : ref item ∉ refs_of items) by set_solver.
  destruct (IH all (S i0) (addObjectsToPDF_entry all i0 item ctx) Hnd2) as [IHa IHb].
  assert (Hbelow : ∀ sibs j node,
    Siblings sibs (children item) → sibs !! j = Some node →
    objects_of (forEntries (addObjectsToPDF_entry all) i0 (item :: items) ctx)
      !! ref node = Some (PDFDict (outlineItemDict sibs j node))).
  { intros sibs j node Hs Hj. simpl.
    pose proof (Siblings_ref_in _ _ _ _ Hs Hj) as Hin.
    rewrite addObjectsToPDF_frame by (intros Hin'; exact (Hdisj _ Hin Hin')).
    rewrite addObjectsToPDF_entry_unfold. by apply Hitem. }
  split.
  - intros [|k] node Hk; simplify_eq/=.
    + rewrite addObjectsToPDF_frame by assumption.
      rewrite addObjectsToPDF_entry_unfold. unfold addObjectsToPDF.
      rewrite addObjectsToPDF_frame by assumption.
      rewrite Nat.add_0_r. apply assign_lookup_eq.
    + rewrite IHa with (k := k) by assumption. do 3 f_equal. lia.
  - intros c sibs j node Hc Hs Hj.
    apply elem_of_cons in Hc as [->|Hc]; [by apply Hbelow|].
    simpl. by eapply IHb.
Qed.

Lemma populated_all (item : PDFTocItem) : populated item.
Proof.
  induction item as [i t cs r p IH] using PDFTocItem_forall_ind.
  intros ctx Hnd sibs j node Hs Hj. simpl in *.
  destruct (forEntries_populated cs IH cs 0 ctx Hnd) as [Ha Hb].
  inversion Hs as [Heq|forest parent Hin Hbelow Heq]; subst.
  - by apply Ha.
  - by eapply Hb.
Qed.

(** After the population phase, the object at the reference of the [j]-th
    node of any children sequence is the dictionary built for it. *)
Lemma addObjectsToPDF_lookup (forest sibs : list PDFTocItem) (ctx : PDFContext)
  (j : nat) (node : PDFTocItem) :
  NoDup (refs_of forest) → Siblings sibs forest → sibs !! j = Some node →
  objects_of (addObjectsToPDF forest ctx) !! ref node
  = Some (PDFDict (outlineItemDict sibs j node)).
Proof.
  intros Hnd Hs Hj.
  exact (populated_all (mkPDFTocItem "" "" forest (0, 0) (0, 0)) ctx Hnd sibs j node Hs Hj).
Qed.

(** ** The keys of an outline dictionary *)

Ltac dict_lookup :=
  unfold outlineItemDict, outlineDict;
  repeat case_match; simplify_map_eq; try reflexivity.

Lemma outlineItemDict_Prev (sibs : list PDFTocItem) (j : nat) (node : PDFTocItem) :
  outlineItemDict sibs j node !! "Prev"
  = (λ prev, PDFRefObj (ref prev)) <$> arr_get sibs (Z.of_nat j - 1).
Proof. dict_lookup. Qed.

Lemma outlineItemDict_Next (sibs : list PDFTocItem) (j : nat) (node : PDFTocItem) :
  outlineItemDict sibs j node !! "Next"
  = (λ next, PDFRefObj (ref next)) <$> arr_get sibs (Z.of_nat j + 1).
Proof. dict_lookup. Qed.

Lemma outlineItemDict_leaf (sibs : list PDFTocItem) (j : nat) (node : PDFTocItem) :
  children node = [] →
  outlineItemDict sibs j node !! "First" = None ∧
  outlineItemDict sibs j node !! "Last" = None ∧
  outlineItemDict sibs j node !! "Count" = None.
Proof. intros Hc. unfold outlineItemDict. rewrite Hc. repeat split; dict_lookup. Qed.

Lemma outlineItemDict_inner (sibs : list PDFTocItem) (j : nat) (node c0 : PDFTocItem)
  (rest : list PDFTocItem) :
  children node = c0 :: rest →
  outlineItemDict sibs j node !! "First" = Some (PDFRefObj (ref c0)) ∧
  outlineItemDict sibs j node !! "Last"
    = Some (PDFRefObj (ref (List.last (c0 :: rest) c0))) ∧
  outlineItemDict sibs j node !! "Count"
    = Some (PDFNumber (countAll (children node))).
Proof.
  intros Hc. unfold outlineItemDict. rewrite !Hc. repeat split; dict_lookup.
Qed.

Lemma arr_get_pred {A} (l : list A) (j : nat) :
  arr_get l (Z.of_nat j - 1) = match j with 0 => None | S k => l !! k end.
Proof.
  unfold arr_get. destruct j as [|k].
  - reflexivity.
  - destruct (Z.ltb_spec (Z.of_nat (S k) - 1) 0); [lia|].
    f_equal. lia.
Qed.

Lemma arr_get_succ {A} (l : list A) (j : nat) :
  arr_get l (Z.of_nat j + 1) = l !! S j.
Proof.
  unfold arr_get. destruct (Z.ltb_spec (Z.of_nat j + 1) 0); [lia|].
  f_equal. lia.
Qed.

Lemma last_default {A} (l : list A) (x d : A) : last l = Some x → List.last l d = x.
Proof.
  induction l as [|a [|b l] IH]; intros Hl; simplify_eq/=; [reflexivity|].
  by apply IH.
Qed.

(** ** The document after [toc] *)

Lemma toc_document_nonempty (items : list TOCItem) (d : PDFDocument) :
  items ≠ [] →
  toc_document items d =
  mkPDFDocument
    (assign (outlineRef_of d) (PDFDict (outlineDict (itemsWithRefs_of items d)))
       (addObjectsToPDF (itemsWithRefs_of items d)
          (addRefs items (outlineRef_of d) (nextRef (doc_context d)).2).2))
    (<["Outlines" := PDFRefObj (outlineRef_of d)]> (catalog d)) (info d) (pages d).
Proof.
  intros Hne. destruct items as [|item items]; [done|].
  unfold toc_document, itemsWithRefs_of, outlineRef_of.
  destruct (nextRef (doc_context d)) as [outlineRef ctx1]. cbn [fst snd].
  by destruct (addRefs _ _ _).
Qed.

Lemma toc_lookup_node (items : list TOCItem) (d : PDFDocument)
  (sibs : list PDFTocItem) (j : nat) (node : PDFTocItem) :
  items ≠ [] → Siblings sibs (itemsWithRefs_of items d) → sibs !! j = Some node →
  objects_of (doc_context (toc_document items d)) !! ref node
  = Some (PDFDict (outlineItemDict sibs j node)).
Proof.
  intros Hne Hs Hj. rewrite toc_document_nonempty by assumption. simpl doc_context.
  pose proof (Siblings_ref_in _ _ _ _ Hs Hj) as Hin.
  rewrite assign_lookup_ne.
  - apply addObjectsToPDF_lookup; [apply refs_of_addRefs_NoDup | done..].
  - apply refs_of_addRefs_above in Hin. intros Heq. rewrite <- Heq in Hin.
    simpl in Hin. lia.
Qed.

Lemma toc_lookup_outline (items : list TOCItem) (d : PDFDocument) :
  items ≠ [] →
  objects_of (doc_context (toc_document items d)) !! outlineRef_of d
  = Some (PDFDict (outlineDict (itemsWithRefs_of items d))).
Proof.
  intros Hne. rewrite toc_document_nonempty by assumption. apply assign_lookup_eq.
Qed.

Lemma nodes_of_located (l : list PDFTocItem) :
  Forall (λ item, ∀ node, node ∈ nodes_of (children item) →
            ∃ sibs j, Siblings sibs (children item) ∧ sibs !! j = Some node) l →
  ∀ node, node ∈ nodes_of l → ∃ sibs j, Siblings sibs l ∧ sibs !! j = Some node.
Proof.
  intros Hall node Hin.
  assert (Hfind : ∃ c k, l !! k = Some c ∧ (node = c ∨ node ∈ nodes_of (children c))).
  { clear Hall. induction l as [|c l IH]; [set_solver|].
    rewrite nodes_of_cons in Hin.
    apply elem_of_cons in Hin as [->|Hin]; [by exists c, 0; eauto|].
    apply elem_of_app in Hin as [Hin|Hin]; [by exists c, 0; eauto|].
    destruct (IH Hin) as (c' & k & Hk & Hc'). exists c', (S k). eauto. }
  destruct Hfind as (c & k & Hk & [->|Hbelow]).
  - exists l, k. split; [constructor | done].
  - rewrite Forall_forall in Hall.
    assert (Hc : c ∈ l) by (apply list_elem_of_lookup; eauto).
    destruct (Hall c Hc node Hbelow) as (sibs & j & Hs & Hj).
    exists sibs, j. split; [by eapply Siblings_below | done].
Qed.

Lemma nodes_of_Siblings (forest : list PDFTocItem) (node : PDFTocItem) :
  node ∈ nodes_of forest → ∃ sibs j, Siblings sibs forest ∧ sibs !! j = Some node.
Proof.
  apply nodes_of_located. apply Forall_forall. intros item _. clear.
  induction item as [i t cs r p IH] using PDFTocItem_forall_ind.
  simpl. by apply nodes_of_located.
Qed.

Lemma itemsWithRefs_erase (items : list TOCItem) (d : PDFDocument) :
  map erase (itemsWithRefs_of items d) = items.
Proof. unfold itemsWithRefs_of. apply addRefs_spec. Qed.

Lemma itemsWithRefs_size (items : list TOCItem) (d : PDFDocument) :
  length (nodes_of (itemsWithRefs_of items d)) = length (toc_nodes items).
Proof.
  unfold itemsWithRefs_of.
  destruct (addRefs_spec items (outlineRef_of d) (nextRef (doc_context d)).2)
    as (_ & Hrefs & _).
  apply (f_equal length) in Hrefs. unfold refs_of in Hrefs.
  by rewrite !length_map, length_seq in Hrefs.
Qed.

Lemma toc_run (items : list TOCItem) (s : State) :
  outcome (toc items) s = Ok tt ∧
  document (state_after (toc items) s) = toc_document items (document s) ∧
  files (state_after (toc items) s) = files s ∧
  trace (state_after (toc items) s) = trace s.
Proof. done. Qed.

(** ** Outline theorems *)

(** C1: for a non-empty TOC tree, [toc] succeeds and registers the outline
    root; the Count written into the root dictionary is the number of TOC
    nodes of the whole tree, and the Count written into the dictionary of
    any node with children is the number of nodes below it (its subtree
    without the node itself). *)
Theorem toc_Count (items : list TOCItem) (s : State) :
  items ≠ [] →
  let d := document s in
  let d' := document (state_after (toc items) s) in
  outcome (toc items) s = Ok tt ∧
  map erase (itemsWithRefs_of items d) = items ∧
  catalog d' !! "Outlines" = Some (PDFRefObj (outlineRef_of d)) ∧
  (∃ outline,
     indirectObjects (doc_context d') !! outlineRef_of d = Some (PDFDict outline) ∧
     outline !! "Count" = Some (PDFNumber (length (toc_nodes items)))) ∧
  (∀ node, node ∈ nodes_of (itemsWithRefs_of items d) → children node ≠ [] →
     ∃ dict,
       indirectObjects (doc_context d') !! ref node = Some (PDFDict dict) ∧
       dict !! "Count" = Some (PDFNumber (length (nodes_of (children node))))).
Proof.
  intros Hne d d'. subst d'.
  destruct (toc_run items s) as (Hok & -> & _). fold d.
  split; [exact Hok|]. split; [apply itemsWithRefs_erase|]. split; [|split].
  - rewrite toc_document_nonempty by assumption. simpl. by rewrite lookup_insert_eq.
  - exists (outlineDict (itemsWithRefs_of items d)).
    split; [by apply toc_lookup_outline|].
    rewrite <- itemsWithRefs_size with (d := d), <- countAll_nodes.
    assert (Hiw : itemsWithRefs_of items d ≠ []).
    { intros Hnil. pose proof (itemsWithRefs_erase items d) as He.
      rewrite Hnil in He. simpl in He. congruence. }
    destruct (itemsWithRefs_of items d) as [|c0 rest]; [done|].
    unfold outlineDict. by rewrite lookup_insert_eq.
  - intros node Hin Hch.
    destruct (nodes_of_Siblings _ _ Hin) as (sibs & j & Hs & Hj).
    exists (outlineItemDict sibs j node).
    split; [by apply toc_lookup_node|].
    destruct (children node) as [|c0 rest] eqn:Hc; [done|].
    destruct (outlineItemDict_inner sibs j node c0 rest Hc) as (_ & _ & ->).
    by rewrite countAll_nodes, Hc.
Qed.

Lemma toc_Count_witness :
  sample_toc ≠ [] ∧
  ∃ outline,
    indirectObjects (doc_context (document (state_after (toc sample_toc) sample_state)))
      !! (11, 0) = Some (PDFDict outline) ∧
    outline !! "Count" = Some (PDFNumber 5).
Proof.
  split; [done|].
  exact (proj1 (proj2 (proj2 (proj2 (toc_Count sample_toc sample_state ltac:(done)))))).
Defined.

(** Every children sequence of the input is the erasure of a children
    sequence of an annotated forest that erases to the input. *)
Lemma InputSiblings_annotated (forest : list PDFTocItem) (cs : list TOCItem) :
  InputSiblings cs (map erase forest) →
  ∃ sibs, Siblings sibs forest ∧ map erase sibs = cs.
Proof.
  intros H. remember (map erase forest) as input eqn:Hinput. revert forest Hinput.
  induction H as [|input parent Hparent Hbelow IH]; intros forest ->.
  - exists forest. split; [constructor | done].
  - apply list_elem_of_fmap in Hparent as (annotated & -> & Hin).
    destruct (IH (children annotated)) as (sibs & Hs & He); [by destruct annotated|].
    exists sibs. split; [by eapply Siblings_below | done].
Qed.

(** C2: [toc] annotates the tree it is given, keeping its shape, ids and
    titles and giving every node a reference of its own, so that every
    children sequence of the input (the top-level sequence included) is a
    children sequence of the annotated tree.  In the document left by [toc],
    for every such sequence: adjacent siblings [a], [b] are linked by
    [a.Next = b.ref] and [b.Prev = a.ref]; the first sibling has no Prev and
    the last no Next; a node with children has First and Last equal to the
    references of its first and last child; a node without children has
    none of First, Last, Count. *)
Theorem toc_links (items : list TOCItem) (s : State) :
  items ≠ [] →
  let forest := itemsWithRefs_of items (document s) in
  let objects :=
    indirectObjects (doc_context (document (state_after (toc items) s))) in
  map erase forest = items ∧
  NoDup (map ref (nodes_of forest)) ∧
  (∀ cs, InputSiblings cs items →
     ∃ sibs, Siblings sibs forest ∧ map erase sibs = cs) ∧
  ∀ sibs, Siblings sibs forest →
    (∀ i a b, sibs !! i = Some a → sibs !! S i = Some b →
       ∃ da db,
         objects !! ref a = Some (PDFDict da) ∧ objects !! ref b = Some (PDFDict db) ∧
         da !! "Next" = Some (PDFRefObj (ref b)) ∧
         db !! "Prev" = Some (PDFRefObj (ref a))) ∧
    (∀ a, head sibs = Some a →
       ∃ da, objects !! ref a = Some (PDFDict da) ∧ da !! "Prev" = None) ∧
    (∀ a, last sibs = Some a →
       ∃ da, objects !! ref a = Some (PDFDict da) ∧ da !! "Next" = None) ∧
    (∀ i a, sibs !! i = Some a →
       ∃ da, objects !! ref a = Some (PDFDict da) ∧
         (∀ c0 cl, head (children a) = Some c0 → last (children a) = Some cl →
            da !! "First" = Some (PDFRefObj (ref c0)) ∧
            da !! "Last" = Some (PDFRefObj (ref cl))) ∧
         (children a = [] →
            da !! "First" = None ∧ da !! "Last" = None ∧ da !! "Count" = None)).
Proof.
  intros Hne forest objects. subst forest objects.
  destruct (toc_run items s) as (_ & -> & _).
  split; [apply itemsWithRefs_erase|].
  split; [apply refs_of_addRefs_NoDup|].
  split.
  { intros cs Hcs. apply InputSiblings_annotated.
    by rewrite itemsWithRefs_erase. }
  intros sibs Hs. repeat split.
  - intros i a b Ha Hb.
    exists (outlineItemDict sibs i a), (outlineItemDict sibs (S i) b).
    split; [by apply toc_lookup_node|]. split; [by apply toc_lookup_node|].
    rewrite outlineItemDict_Next, outlineItemDict_Prev, arr_get_succ, arr_get_pred.
    by rewrite Ha, Hb.
  - intros a Ha. rewrite head_lookup in Ha.
    exists (outlineItemDict sibs 0 a). split; [by apply toc_lookup_node|].
    by rewrite outlineItemDict_Prev, arr_get_pred.
  - intros a Ha. rewrite last_lookup in Ha.
    exists (outlineItemDict sibs (pred (length sibs)) a).
    split; [by apply toc_lookup_node|].
    rewrite outlineItemDict_Next, arr_get_succ.
    apply lookup_lt_Some in Ha.
    rewrite (lookup_ge_None_2 sibs (S (pred (length sibs)))) by lia. done.
  - intros i a Ha. exists (outlineItemDict sibs i a).
    split; [by apply toc_lookup_node|]. split.
    + intros c0 cl Hh Hl. destruct (children a) as [|c rest] eqn:Hc; simplify_eq/=.
      destruct (outlineItemDict_inner sibs i a c0 rest Hc) as (-> & -> & _).
      split; [done|]. by rewrite (last_default _ cl).
    + apply outlineItemDict_leaf.
Qed.

Lemma toc_links_witness :
  sample_toc ≠ [] ∧
  (∃ da db,
     indirectObjects (doc_context (document (state_after (toc sample_toc) sample_state)))
       !! (12, 0) = Some (PDFDict da) ∧
     indirectObjects (doc_context (document (state_after (toc sample_toc) sample_state)))
       !! (16, 0) = Some (PDFDict db) ∧
     da !! "Next" = Some (PDFRefObj (16, 0)) ∧
     db !! "Prev" = Some (PDFRefObj (12, 0))) ∧
  (∃ da db,
     indirectObjects (doc_context (document (state_after (toc sample_toc) sample_state)))
       !! (13, 0) = Some (PDFDict da) ∧
     indirectObjects (doc_context (document (state_after (toc sample_toc) sample_state)))
       !! (14, 0) = Some (PDFDict db) ∧
     da !! "Next" = Some (PDFRefObj (14, 0)) ∧
     db !! "Prev" = Some (PDFRefObj (13, 0))).
Proof.
  split; [done|].
  pose proof (proj2 (proj2 (proj2 (toc_links sample_toc sample_state ltac:(done)))))
    as Hlinks.
  split.
  - exact (proj1 (Hlinks _ (Siblings_top _)) 0 _ _ eq_refl eq_refl).
  - refine (proj1 (Hlinks
                     [mkPDFTocItem "s1" "s1" [] (13, 0) (12, 0);
                      mkPDFTocItem "s2" "Two" [mkPDFTocItem "s21" "s21" [] (15, 0) (14, 0)]
                        (14, 0) (12, 0)] _)
              0 _ _ eq_refl eq_refl).
    refine (Siblings_below _ _
              (mkPDFTocItem "ch1" "One"
                 [mkPDFTocItem "s1" "s1" [] (13, 0) (12, 0);
                  mkPDFTocItem "s2" "Two" [mkPDFTocItem "s21" "s21" [] (15, 0) (14, 0)]
                    (14, 0) (12, 0)]
                 (12, 0) (11, 0)) _ (Siblings_top _)).
    vm_compute. left.
Defined.

(** C6: on the empty TOC sequence [toc] returns normally and changes
    nothing: no object is allocated or assigned, the catalog keeps its
    entries (no Outlines key is added), and the rest of the state is the
    same. *)
Theorem toc_empty (s : State) :
  outcome (toc []) s = Ok tt ∧
  state_after (toc []) s = s ∧
  doc_context (document (state_after (toc []) s)) = doc_context (document s) ∧
  catalog (document (state_after (toc []) s)) = catalog (document s).
Proof. destruct s as [d fs n tr]. done. Qed.

(** ** Running [metadata] *)

Lemma bind_run {A B} (m : M A) (k : A → M B) (s s1 : State) (a : A) :
  m s = (Ok a, s1) → (m ≫= k) s = k a s1.
Proof. intros H. unfold mbind, M_bind. by rewrite H. Qed.

Lemma first_v_ok (entries : option (list MetaValue)) :
  has_first entries = true → first_v entries = Ok (first_text entries).
Proof. by destruct entries as [[|x l]|]. Qed.

Lemma DocInfo_eta (i : DocInfo) :
  i = mkDocInfo (Producer i) (Title i) (Author i) (Subject i) (Keywords i)
        (Creator i) (CreationDate i).
Proof. by destruct i. Qed.

Lemma with_info_id (s : State) : with_info (λ i, i) s = s.
Proof. by destruct s as [[] ? ? ?]. Qed.

(** Reduce the slot projections, innermost update first. *)
Ltac slots :=
  lazy beta iota delta [Producer Title Author Subject Keywords Creator
                        CreationDate].

Lemma setProducer_run (x : string) (s : State) :
  setProducer x s
  = (Ok tt,
     with_info
       (λ i, mkDocInfo (Some x) (Title i) (Author i) (Subject i) (Keywords i)
               (Creator i) (CreationDate i)) s).
Proof. reflexivity. Qed.

Lemma with_info_compose (f g : DocInfo → DocInfo) (s : State) :
  with_info f (with_info g s) = with_info (λ i, f (g i)) s.
Proof. reflexivity. Qed.

Lemma with_info_ext (f g : DocInfo → DocInfo) (s : State) :
  f (info (document s)) = g (info (document s)) → with_info f s = with_info g s.
Proof. unfold with_info. by intros ->. Qed.

(** A guarded setter changes the slots exactly when the text is non-empty. *)
Lemma if_text_run (x : option string) (k : string → M unit)
  (upd : string → DocInfo → DocInfo) (s : State) :
  (∀ t s', k t s' = (Ok tt, with_info (upd t) s')) →
  if_text x k s
  = (Ok tt, with_info (match nonempty x with Some t => upd t | None => λ i, i end) s).
Proof.
  intros Hk. destruct x as [x|]; simpl; [|by rewrite with_info_id].
  destruct (decide (x = "")); [by rewrite with_info_id | apply Hk].
Qed.

Lemma keywords_run (keywords : option (list string)) (s : State) :
  match keywords with Some ks => setKeywords ks | None => mret tt end s
  = (Ok tt,
     with_info
       (λ i, mkDocInfo (Producer i) (Title i) (Author i) (Subject i)
               (set_or_keep keywords (Keywords i)) (Creator i)
               (CreationDate i)) s).
Proof.
  destruct keywords; [reflexivity|]. simpl.
  rewrite <- (with_info_id s) at 1. unfold with_info.
  by rewrite <- DocInfo_eta.
Qed.

Lemma with_catalog_id (s : State) : with_catalog (λ c, c) s = s.
Proof. by destruct s as [[] ? ? ?]. Qed.

Lemma with_info_catalog (f : DocInfo → DocInfo)
  (g : gmap string PDFObject → gmap string PDFObject) (s : State) :
  with_info f (with_catalog g s) = with_catalog g (with_info f s).
Proof. reflexivity. Qed.

(** The guarded [setLanguage] changes the catalog exactly when the text is
    non-empty. *)
Lemma language_run (x : option string) (s : State) :
  if_text x setLanguage s
  = (Ok tt,
     with_catalog
       (λ c, match nonempty x with
             | Some text => <["Lang" := PDFString text]> c
             | None => c
             end) s).
Proof.
  destruct x as [x|]; simpl; [|by rewrite with_catalog_id].
  destruct (decide (x = "")); [by rewrite with_catalog_id | reflexivity].
Qed.

Lemma is_bkp_ok (item : MetaValue) :
  role_has_first item = true → is_bkp item = Ok (has_bkp_role item).
Proof.
  unfold role_has_first, is_bkp, has_bkp_role, role_text.
  destruct (r item) as [q|]; simpl; [|done].
  intros Hq. rewrite (first_v_ok _ Hq).
  destruct (first_text (q !! metaTerms_role)) as [role|]; [|done].
  f_equal. apply bool_decide_ext. naive_solver.
Qed.

Lemma find_result_ok (entries : list MetaValue) :
  forallb role_has_first entries = true →
  find_result is_bkp entries = Ok (List.find has_bkp_role entries).
Proof.
  induction entries as [|item entries IH]; [done|]. simpl.
  intros [Hitem Hrest]%andb_prop. rewrite (is_bkp_ok _ Hitem).
  destruct (has_bkp_role item); [done | by apply IH].
Qed.

Lemma bkp_contributor_ok (tree : Meta) :
  forallb role_has_first (default [] (tree !! metaTerms_contributor)) = true →
  bkp_contributor tree = Ok (v <$> first_bkp tree).
Proof.
  unfold bkp_contributor, first_bkp.
  destruct (tree !! metaTerms_contributor) as [entries|]; simpl; [|done].
  intros H. by rewrite (find_result_ok _ H).
Qed.

(** On a record whose sequences have first entries, [metadata] returns
    normally and leaves the slots described by [info_after] and the catalog
    described by [catalog_after]. *)
Lemma metadata_run (P : Platform) (tree : Meta) (s : State) :
  first_values_exist tree = true →
  metadata P tree s
  = (Ok tt, with_catalog (catalog_after tree) (with_info (info_after P tree) s)).
Proof.
  unfold first_values_exist. rewrite !andb_true_iff.
  intros ((((Ht & Hd) & Hc) & Hl) & Hcd).
  unfold metadata, lift_result.
  rewrite (first_v_ok _ Ht), (first_v_ok _ Hd), (first_v_ok _ Hl), (first_v_ok _ Hcd),
    (bkp_contributor_ok _ Hc).
  repeat first
    [ erewrite bind_run by apply setProducer_run
    | erewrite bind_run by apply language_run
    | erewrite bind_run by (apply if_text_run; reflexivity)
    | erewrite bind_run by apply keywords_run
    | erewrite bind_run by reflexivity ].
  erewrite if_text_run by reflexivity.
  rewrite with_info_catalog, !with_info_compose. unfold catalog_after.
  f_equal. f_equal. apply with_info_ext.
  generalize (info (document s)). intros [pr ti au su ke cr da].
  unfold info_after, set_or_keep.
  destruct (nonempty (first_text (tree !! metaTerms_title))); slots;
    destruct (nonempty (_ <$> tree !! metaTerms_creator)); slots;
    destruct (nonempty (first_text (tree !! metaTerms_description))); slots;
    destruct (tree !! metaTerms_subject); slots;
    destruct (nonempty (v <$> first_bkp tree)); slots;
    destruct (nonempty (first_text (created_or_date tree))); slots;
    reflexivity.
Qed.

Lemma keeps_bind {A B} (m : M A) (k : A → M B) :
  keeps_Producer m → (∀ a, keeps_Producer (k a)) → keeps_Producer (m ≫= k).
Proof.
  intros Hm Hk s x Hs. specialize (Hm s x Hs).
  unfold state_after, mbind, M_bind in *.
  destruct (m s) as [[a|e] s1]; [by apply Hk | done].
Qed.

Lemma keeps_if_text (x : option string) (k : string → M unit) :
  (∀ t, keeps_Producer (k t)) → keeps_Producer (if_text x k).
Proof.
  intros Hk. destruct x as [x|]; simpl; [|by intros s y Hs].
  destruct (decide (x = "")); [by intros s y Hs | apply Hk].
Qed.

Lemma keeps_lift_result {A} (x : result A) : keeps_Producer (lift_result x).
Proof. by intros s y Hs. Qed.

Lemma keeps_mret {A} (a : A) : keeps_Producer (mret a).
Proof. by intros s y Hs. Qed.

Lemma keeps_modify_info (f : DocInfo → DocInfo) :
  (∀ i, Producer (f i) = Producer i) → keeps_Producer (modify_info f).
Proof. intros Hf s y Hs. unfold state_after. simpl. by rewrite Hf. Qed.

Lemma keeps_setLanguage (x : string) : keeps_Producer (setLanguage x).
Proof. by intros s y Hs. Qed.

Ltac keeps_step :=
  first
    [ apply keeps_lift_result
    | apply keeps_mret
    | apply keeps_setLanguage
    | apply keeps_modify_info; intros ?; reflexivity
    | apply keeps_if_text; intros ?
    | apply keeps_bind; [|intros ?] ].

Lemma Producer_always (P : Platform) (tree : Meta) (s : State) :
  Producer (info (document (state_after (metadata P tree) s))) = Some "Vivliostyle".
Proof.
  unfold metadata, state_after.
  erewrite bind_run by reflexivity.
  match goal with |- context [(?m ?s0).2] => change ((m s0).2) with (state_after m s0) end.
  assert (Hkeywords : ∀ keywords : option (list string),
            keeps_Producer
              match keywords with Some ks => setKeywords ks | None => mret tt end).
  { intros [ks|]; keeps_step. }
  match goal with
  | |- Producer (info (document (state_after ?m ?s0))) = _ =>
      cut (keeps_Producer m); [intros Hkeeps; by apply Hkeeps|]
  end.
  repeat first [ apply Hkeywords | keeps_step ].
Qed.

(** ** Metadata theorems *)

(** C3 (as amended): Producer is always set to the tool string, whatever
    the record holds.  On a record whose present terms have a first entry,
    [metadata] returns normally and: Title, Subject and Language are set to
    the first text of title, description and language exactly when that text
    is non-empty, the language being kept by [setLanguage] as the entry Lang
    of the catalog, whose other entries stay as they are; Author is set to
    the texts of creator joined with "; " exactly when the joined text is
    non-empty; Keywords is set to the texts
    of subject exactly when the term is present; Creator is set to the text
    of the first contributor with the book-producer role exactly when that
    text is non-empty; CreationDate is set from created, falling back to
    date, exactly when the first text is non-empty.  A slot that is not set
    keeps its former value. *)
Theorem metadata_fields (P : Platform) (tree : Meta) (s : State) :
  let i := info (document s) in
  let i' := info (document (state_after (metadata P tree) s)) in
  let c := catalog (document s) in
  let c' := catalog (document (state_after (metadata P tree) s)) in
  Producer i' = Some "Vivliostyle" ∧
  (first_values_exist tree = true →
   outcome (metadata P tree) s = Ok tt ∧
   Title i' = set_or_keep (nonempty (first_text (tree !! metaTerms_title))) (Title i) ∧
   Author i' =
     set_or_keep
       (nonempty ((λ entries, String.concat "; " (map v entries))
                    <$> tree !! metaTerms_creator))
       (Author i) ∧
   Subject i' =
     set_or_keep (nonempty (first_text (tree !! metaTerms_description))) (Subject i) ∧
   Keywords i' = set_or_keep (map v <$> tree !! metaTerms_subject) (Keywords i) ∧
   Creator i' = set_or_keep (nonempty (v <$> first_bkp tree)) (Creator i) ∧
   c' !! "Lang" =
     set_or_keep (PDFString <$> nonempty (first_text (tree !! metaTerms_language)))
       (c !! "Lang") ∧
   (∀ key, key ≠ "Lang" → c' !! key = c !! key) ∧
   CreationDate i' =
     set_or_keep (newDate P <$> nonempty (first_text (created_or_date tree)))
       (CreationDate i)).
Proof.
  intros i i' c c'. split; [apply Producer_always|].
  intros Hwf. subst i i' c c'. unfold outcome, state_after.
  rewrite (metadata_run P tree s Hwf). cbn [fst snd].
  unfold with_catalog, catalog_after. cbn [document catalog info].
  repeat split.
  - destruct (nonempty (first_text (tree !! metaTerms_language))); [|done].
    simpl. by rewrite lookup_insert_eq.
  - intros key Hkey.
    destruct (nonempty (first_text (tree !! metaTerms_language))); [|done].
    by rewrite lookup_insert_ne.
Qed.

Lemma metadata_fields_witness :
  first_values_exist tree_book = true ∧
  let i' := info (document (state_after (metadata sample_platform tree_book) sample_state)) in
  Title i' = Some "A Book" ∧ Author i' = Some "X; Y" ∧ Subject i' = None ∧
  Keywords i' = Some ["k1"; "k2"] ∧ CreationDate i' = Some (mkDate None).
Proof.
  split; [reflexivity|].
  destruct (proj2 (metadata_fields sample_platform tree_book sample_state) eq_refl)
    as (_ & Ht & Ha & Hs & Hk & _ & _ & _ & Hd).
  repeat split; assumption.
Defined.

(** The claim C3 as stated fails: a title term that is present, with the
    empty text as its first value, leaves Title unset. *)
Lemma metadata_present_not_set :
  is_Some (tree_empty_title !! metaTerms_title) ∧
  outcome (metadata sample_platform tree_empty_title) sample_state = Ok tt ∧
  Title (info (document (state_after (metadata sample_platform tree_empty_title)
                           sample_state))) = None.
Proof. split; [by eexists | by vm_compute]. Qed.

(** C7 (as amended): on a record whose present terms have a first entry,
    [metadata] returns normally, and Creator is set to the text of the first
    contributor entry whose first role value is "bkp" when that text is not
    empty; when no contributor entry has that role (other entries or not),
    or that text is empty, Creator keeps its former value, so it stays
    absent on a document that had none. *)
Theorem metadata_Creator (P : Platform) (tree : Meta) (s : State) :
  first_values_exist tree = true →
  let before := Creator (info (document s)) in
  let after := Creator (info (document (state_after (metadata P tree) s))) in
  outcome (metadata P tree) s = Ok tt ∧
  (∀ item, first_bkp tree = Some item → v item ≠ "" → after = Some (v item)) ∧
  (∀ item, first_bkp tree = Some item → v item = "" → after = before) ∧
  (first_bkp tree = None → after = before).
Proof.
  intros Hwf before after. subst before after. unfold outcome, state_after.
  rewrite (metadata_run P tree s Hwf). split; [done|]. simpl.
  repeat split.
  - intros item -> Hv. simpl. by destruct (decide (v item = "")).
  - intros item -> Hv. simpl. by destruct (decide (v item = "")).
  - by intros ->.
Qed.

Lemma metadata_Creator_witness :
  (first_values_exist tree_bkp_first = true ∧
   Creator (info (document (state_after (metadata sample_platform tree_bkp_first)
                              sample_state))) = Some "A") ∧
  (first_values_exist tree_no_bkp = true ∧
   Creator (info (document (state_after (metadata sample_platform tree_no_bkp)
                              sample_state))) = None).
Proof.
  split; (split; [reflexivity|]).
  - exact (proj1 (proj2 (metadata_Creator sample_platform tree_bkp_first sample_state
                           eq_refl))
             (entry_with_role "A" "bkp") eq_refl ltac:(done)).
  - exact (proj2 (proj2 (proj2 (metadata_Creator sample_platform tree_no_bkp
                                  sample_state eq_refl))) eq_refl).
Defined.

(** The claim C7 as stated fails: the first contributor with the
    book-producer role has the empty text, and Creator is not set to it
    (nor to the text of a later entry with that role). *)
Lemma metadata_Creator_empty_text :
  v <$> first_bkp tree_bkp_empty_text = Some "" ∧
  outcome (metadata sample_platform tree_bkp_empty_text) sample_state = Ok tt ∧
  Creator (info (document (state_after (metadata sample_platform tree_bkp_empty_text)
                             sample_state))) = None.
Proof. by vm_compute. Qed.

(** C10 (as amended): when the created term is present with a non-empty
    first text, or created is missing and date is present with a non-empty
    first text, on a record whose present terms have a first entry,
    [metadata] returns normally and sets CreationDate to the Date built from
    that text, whatever the date parser makes of it: for a text that does
    not parse, an invalid Date is stored. *)
Theorem metadata_CreationDate_unparsed (P : Platform) (tree : Meta) (s : State)
  (text : string) :
  first_values_exist tree = true →
  (first_text (tree !! metaTerms_created) = Some text ∨
   (tree !! metaTerms_created = None ∧ first_text (tree !! metaTerms_date) = Some text)) →
  text ≠ "" →
  outcome (metadata P tree) s = Ok tt ∧
  CreationDate (info (document (state_after (metadata P tree) s)))
    = Some (mkDate (parseDate P text)) ∧
  (parseDate P text = None →
   CreationDate (info (document (state_after (metadata P tree) s)))
     = Some (mkDate None)).
Proof.
  intros Hwf Hterm Htext. unfold outcome, state_after.
  rewrite (metadata_run P tree s Hwf). split; [done|]. simpl.
  assert (Hsel : first_text (created_or_date tree) = Some text).
  { unfold created_or_date. destruct Hterm as [Hc|[-> Hd]]; [|done].
    by destruct (tree !! metaTerms_created). }
  rewrite Hsel. simpl. destruct (decide (text = "")); [done|]. simpl.
  split; [done|]. unfold newDate. by intros ->.
Qed.

Lemma metadata_CreationDate_unparsed_witness :
  first_values_exist tree_bad_date = true ∧
  (tree_bad_date !! metaTerms_created = None ∧
   first_text (tree_bad_date !! metaTerms_date) = Some "not a date") ∧
  "not a date" ≠ "" ∧
  parseDate sample_platform "not a date" = None ∧
  CreationDate (info (document (state_after (metadata sample_platform tree_bad_date)
                                  sample_state))) = Some (mkDate None).
Proof.
  split; [reflexivity|]. split; [by split|]. split; [done|]. split; [reflexivity|].
  exact (proj2 (proj2 (metadata_CreationDate_unparsed sample_platform tree_bad_date
                         sample_state "not a date" eq_refl
                         (or_intror (conj eq_refl eq_refl)) ltac:(done)))
           eq_refl).
Defined.

(** The claim C10 as stated fails: [created] is consulted first, and when
    it is present [date] is not read; here the date term is present with a
    non-empty first value, and CreationDate is not set. *)
Lemma created_shadows_date :
  first_text (tree_created_and_date !! metaTerms_date) = Some "2020-01-01" ∧
  outcome (metadata sample_platform tree_created_and_date) sample_state = Ok tt ∧
  CreationDate (info (document (state_after (metadata sample_platform
                                               tree_created_and_date)
                                  sample_state))) = None.
Proof. by vm_compute. Qed.

(** ** Cover theorems *)

Lemma cover_skipped (P : Platform) (c : CoverItem) (root : string) (s : State) :
  (mediaType c ≠ "image/png" ∧ mediaType c ≠ "image/jpeg") ∨
  url_pathname P (src c) = None ∨ url_pathname P (src c) = Some "" →
  cover P (Some c) root s = (Ok tt, s).
Proof.
  intros Hskip. unfold cover.
  destruct (url_pathname P (src c)) as [pathName|]; [|done].
  destruct (decide (pathName = "")); [done|].
  destruct Hskip as [[Hpng Hjpg]|[?|?]]; [|done|congruence].
  by rewrite !decide_False.
Qed.

Lemma drawCover_run (P : Platform) (image : PDFImage) (s : State) (page0 : PDFPage)
  (rest : list PDFPage) :
  pages (document s) = page0 :: rest →
  drawCover P image s =
  (Ok tt,
   let imageSize := scale image (page_width page0 / image_width image)%float in
   mkState
     (mkPDFDocument (page_objects P image imageSize (doc_context (document s)))
        (catalog (document s)) (info (document s))
        (mkPDFPage (size_width imageSize) (size_height imageSize) [(image, imageSize)]
         :: pages (document s)))
     (files s) (uuid_count s) (trace s)).
Proof.
  intros Hpages.
  unfold drawCover, getPage, getWidth, get_document, insertCoverPage,
    modify_document, mbind, M_bind.
  rewrite Hpages. simpl. by rewrite Hpages.
Qed.

Lemma cover_run (P : Platform) (c : CoverItem) (root pathName : string) (s : State)
  (data : bytes) (image : PDFImage) :
  url_pathname P (src c) = Some pathName → pathName ≠ "" →
  (mediaType c = "image/png" ∧ embedPng P data = Some image) ∨
  (mediaType c = "image/jpeg" ∧ embedJpg P data = Some image) →
  files s !! path_join P root pathName = Some data →
  cover P (Some c) root s =
  drawCover P image
    (mkState
       (mkPDFDocument (embed_objects P image (doc_context (document s)))
          (catalog (document s)) (info (document s)) (pages (document s)))
       (files s) (uuid_count s)
       (trace s ++ [ReadFile (path_join P root pathName)])).
Proof.
  intros Hurl Hpath Hmedia Hfile. unfold cover. rewrite Hurl.
  rewrite decide_False by assumption.
  destruct Hmedia as [[Hm Himg]|[Hm Himg]]; rewrite Hm; simpl;
    unfold readFile, file_contents, embed, emit, modify_document, mbind, M_bind;
    simpl; by rewrite Hfile, Himg.
Qed.

(** C4 (as amended): for a cover of supported media type whose file is
    read and decoded to an image of intrinsic size (w, h), applied to a
    document whose first page has width targetWidth, [cover] returns
    normally; the page it inserts has width w * (targetWidth / w) and height
    h * (targetWidth / w) in double-precision arithmetic, shows the image at
    that size, sits at index 0, and every page that was at index k is at
    index k + 1.  With first-page width 600 and a 1200 x 800 image the
    inserted page is 600 x 400. *)
Theorem cover_page_geometry (P : Platform) (c : CoverItem) (root pathName : string)
  (s : State) (data : bytes) (image : PDFImage) (page0 : PDFPage)
  (rest : list PDFPage) :
  url_pathname P (src c) = Some pathName → pathName ≠ "" →
  (mediaType c = "image/png" ∧ embedPng P data = Some image) ∨
  (mediaType c = "image/jpeg" ∧ embedJpg P data = Some image) →
  files s !! path_join P root pathName = Some data →
  pages (document s) = page0 :: rest →
  let targetWidth := page_width page0 in
  let factor := (targetWidth / image_width image)%float in
  let pages' := pages (document (state_after (cover P (Some c) root) s)) in
  outcome (cover P (Some c) root) s = Ok tt ∧
  length pages' = S (length (pages (document s))) ∧
  (∃ page,
     pages' !! 0 = Some page ∧
     page_width page = (image_width image * factor)%float ∧
     page_height page = (image_height image * factor)%float ∧
     page_images page
       = [(image, mkImageSize (page_width page) (page_height page))] ∧
     (targetWidth = 600%float → image_width image = 1200%float →
      image_height image = 800%float →
      page_width page = 600%float ∧ page_height page = 400%float)) ∧
  (∀ k page, pages (document s) !! k = Some page → pages' !! S k = Some page).
Proof.
  intros Hurl Hpath Hmedia Hfile Hpages targetWidth factor pages'.
  subst targetWidth factor pages'. unfold outcome, state_after.
  rewrite (cover_run P c root pathName s data image Hurl Hpath Hmedia Hfile).
  erewrite drawCover_run by exact Hpages. simpl.
  split; [done|]. split; [by rewrite Hpages|]. split; [|by rewrite Hpages].
  eexists. split; [reflexivity|]. simpl.
  split; [done|]. split; [done|]. split; [done|].
  intros Hw Hiw Hih. rewrite Hw, Hiw, Hih. split; reflexivity.
Qed.

Lemma cover_page_geometry_witness :
  url_pathname cover_platform (src png_cover) = Some "cover.png" ∧
  "cover.png" ≠ "" ∧
  files cover_state !! path_join cover_platform "/book" "cover.png" = Some [] ∧
  pages (document cover_state) = [letter_page] ∧
  length (pages (document (state_after (cover cover_platform (Some png_cover) "/book")
                             cover_state))) = 2 ∧
  pages (document (state_after (cover cover_platform (Some png_cover) "/book")
                     cover_state)) !! 1 = Some letter_page.
Proof.
  split; [reflexivity|]. split; [done|]. split; [reflexivity|].
  split; [reflexivity|].
  pose proof (cover_page_geometry cover_platform png_cover "/book" "cover.png"
                cover_state [] (mkPDFImage 1120 800 []) letter_page []
                eq_refl ltac:(done) (or_introl (conj eq_refl eq_refl))
                eq_refl eq_refl) as (_ & Hlen & _ & Hshift).
  split; [exact Hlen | exact (Hshift 0 letter_page eq_refl)].
Defined.

(** The claim C4 as stated fails: on a US Letter first page (612 wide) a
    1120 x 800 cover gives an inserted page whose width is the double just
    below 612 (0x1.31fffffffffffp+9, printed 611.9999999999999), not 612. *)
Lemma cover_width_not_exact :
  page_width <$> pages (document cover_state) !! 0 = Some 612%float ∧
  ∃ page,
    pages (document (state_after (cover cover_platform (Some png_cover) "/book")
                       cover_state)) !! 0 = Some page ∧
    page_width page = 0x1.31fffffffffffp+9%float ∧
    page_width page ≠ 612%float.
Proof.
  split; [reflexivity|]. eexists. split; [by vm_compute|].
  split; [reflexivity|]. simpl. intros Heq.
  apply (f_equal (λ x, PrimFloat.eqb x 612)) in Heq. vm_compute in Heq. discriminate.
Qed.

(** C8: for a cover whose media type is neither image/png nor image/jpeg,
    [cover] returns normally and changes nothing: in particular the number
    of pages and the page at index 0 are what they were. *)
Theorem cover_unsupported (P : Platform) (c : CoverItem) (root : string) (s : State) :
  mediaType c ≠ "image/png" → mediaType c ≠ "image/jpeg" →
  outcome (cover P (Some c) root) s = Ok tt ∧
  document (state_after (cover P (Some c) root) s) = document s ∧
  length (pages (document (state_after (cover P (Some c) root) s)))
    = length (pages (document s)) ∧
  pages (document (state_after (cover P (Some c) root) s)) !! 0
    = pages (document s) !! 0.
Proof.
  intros Hpng Hjpg. unfold outcome, state_after.
  by rewrite cover_skipped by (left; done).
Qed.

Lemma cover_unsupported_witness :
  mediaType gif_cover ≠ "image/png" ∧ mediaType gif_cover ≠ "image/jpeg" ∧
  outcome (cover sample_platform (Some gif_cover) "/book") sample_state = Ok tt ∧
  pages (document (state_after (cover sample_platform (Some gif_cover) "/book")
                     sample_state)) !! 0 = Some letter_page.
Proof.
  split; [done|]. split; [done|].
  destruct (cover_unsupported sample_platform gif_cover "/book" sample_state
              ltac:(done) ltac:(done)) as (Hok & _ & _ & Hp0).
  split; [exact Hok | exact Hp0].
Defined.

(** C9: for a cover with an unsupported media type, and for a cover whose
    src has no path component, [cover] returns before any file access: the
    event trace and the file system are as they were and the call cannot
    fail, whatever the file system holds (the cover file may be missing). *)
Theorem cover_no_file_access (P : Platform) (c : CoverItem) (root : string)
  (s : State) :
  (mediaType c ≠ "image/png" ∧ mediaType c ≠ "image/jpeg") ∨
  url_pathname P (src c) = None ∨ url_pathname P (src c) = Some "" →
  outcome (cover P (Some c) root) s = Ok tt ∧
  trace (state_after (cover P (Some c) root) s) = trace s ∧
  files (state_after (cover P (Some c) root) s) = files s ∧
  (∀ path, outcome (cover P (Some c) root) s ≠ Throw (IOError path)).
Proof.
  intros Hskip. unfold outcome, state_after.
  by rewrite cover_skipped by assumption.
Qed.

Lemma cover_no_file_access_witness :
  (mediaType gif_cover ≠ "image/png" ∧ mediaType gif_cover ≠ "image/jpeg") ∧
  files sample_state !! path_join sample_platform "/book" "cover.gif" = None ∧
  outcome (cover sample_platform (Some gif_cover) "/book") sample_state = Ok tt ∧
  trace (state_after (cover sample_platform (Some gif_cover) "/book") sample_state)
    = [].
Proof.
  assert (Hmedia : mediaType gif_cover ≠ "image/png" ∧
                   mediaType gif_cover ≠ "image/jpeg") by (split; discriminate).
  split; [exact Hmedia|]. split; [reflexivity|].
  destruct (cover_no_file_access sample_platform gif_cover "/book" sample_state
              (or_introl Hmedia)) as (Hok & Htr & _).
  split; [exact Hok | exact Htr].
Defined.

(** ** Text *)

Lemma rev_app_append (a b c : string) :
  String.rev_app (a ++ b) c = String.rev_app b (String.rev_app a c).
Proof. revert c. induction a as [|x a IH]; intros c; [done|]. simpl. apply IH. Qed.










(** ** Export theorems *)

Ltac unfold_save :=
  unfold state_after, outcome, save, document_save, writeFile, store_file,
    pressReadyModule_build, run_build, uuid, get_document, modify_document, emit,
    mbind, M_bind, mret, M_ret.



Example save_direct_sample :
  trace (state_after (save sample_platform "book.pdf" false) sample_state)
  = [ WriteFile "book.pdf" [] ].
Proof. reflexivity. Qed.

Example save_pressReady_sample :
  trace (state_after (save sample_platform "book.pdf" true) sample_state)
  = [ WriteFile sample_tmp_path []; PressReadyBuild sample_tmp_path "book.pdf" ].
Proof. reflexivity. Qed.

(** ** Further examples *)

(** [PDFName.of] decodes what it is given: an id with [#41] in it gets a
    Dest with [A] in its place, and an id without [#] is kept. *)
Example PDFName_of_sample :
  PDFName_of "sec#41" = PDFName "secA" ∧ PDFName_of "ch1" = PDFName "ch1".
Proof. by vm_compute. Qed.

(** A term listed with no entry stops [metadata] with a [TypeError]; the
    Producer slot has been written by then, the later slots have not. *)
Example metadata_no_entry_throws :
  outcome (metadata sample_platform tree_no_title_entry) sample_state = Throw TypeError ∧
  info (document (state_after (metadata sample_platform tree_no_title_entry)
                    sample_state))
  = mkDocInfo (Some "Vivliostyle") None None None None None None.
Proof. by vm_compute. Qed.

(** ** More on the outline *)

Lemma Siblings_children (sibs forest : list PDFTocItem) (j : nat) (node : PDFTocItem) :
  Siblings sibs forest → sibs !! j = Some node → Siblings (children node) forest.
Proof.
  induction 1 as [|forest parent Hin Hbelow IH]; intros Hj.
  - apply Siblings_below with node; [|constructor].
    apply list_elem_of_lookup. eauto.
  - apply Siblings_below with parent; [assumption | by apply IH].
Qed.

Lemma addRefs_parents_sequence (l : list TOCItem) :
  Forall (λ item, ∀ parent ctx node child,
            node ∈ nodes_of (addRefs (toc_children item) parent ctx).1 →
            child ∈ children node → parentRef child = ref node) l →
  ∀ parent ctx node child,
    node ∈ nodes_of (addRefs l parent ctx).1 →
    child ∈ children node → parentRef child = ref node.
Proof.
  induction 1 as [|item items Hitem _ IH]; intros parent ctx node child Hnode Hchild.
  { simpl in Hnode. set_solver. }
  rewrite addRefs_cons, addRefs_item_unfold in Hnode. cbn zeta in Hnode.
  cbn [fst snd] in Hnode. rewrite nodes_of_cons in Hnode. cbn [children] in Hnode.
  apply elem_of_cons in Hnode as [->|Hnode].
  - cbn [children ref] in *.
    destruct (addRefs_spec (toc_children item) (ref_at (S (largestObjectNumber ctx)))
                (nextRef ctx).2) as (_ & _ & _ & _ & Hparents).
    rewrite Forall_forall in Hparents. by apply Hparents.
  - apply elem_of_app in Hnode as [Hnode|Hnode]; [by eapply Hitem | by eapply IH].
Qed.

Lemma addRefs_parents (l : list TOCItem) (parent : PDFRef) (ctx : PDFContext)
  (node child : PDFTocItem) :
  node ∈ nodes_of (addRefs l parent ctx).1 → child ∈ children node →
  parentRef child = ref node.
Proof.
  revert parent ctx node child. apply addRefs_parents_sequence.
  induction l as [|item items IH]; constructor; [|exact IH].
  clear IH items. induction item as [i t cs Hcs] using TOCItem_forall_ind.
  simpl. apply addRefs_parents_sequence. exact Hcs.
Qed.

Lemma outlineItemDict_base (sibs : list PDFTocItem) (j : nat) (node : PDFTocItem) :
  outlineItemDict sibs j node !! "Title" = Some (PDFHexString (item_title node)) ∧
  outlineItemDict sibs j node !! "Dest" = Some (PDFName_of (item_id node)) ∧
  outlineItemDict sibs j node !! "Parent" = Some (PDFRefObj (parentRef node)).
Proof. repeat split; dict_lookup. Qed.

Lemma erase_fields (node : PDFTocItem) :
  toc_id (erase node) = item_id node ∧ toc_title (erase node) = item_title node.
Proof. by destruct node. Qed.

Lemma decodeName_unfold (c h l : Ascii.ascii) (rest : string) :
  decodeName (String c (String h (String l rest)))
  = match (if decide (c = "#"%char) then hex_digit h else None), hex_digit l with
    | Some a, Some b => String (ascii_of_N (16 * a + b)) (decodeName rest)
    | _, _ => String c (decodeName (String h (String l rest)))
    end.
Proof. reflexivity. Qed.

(** A name without [#] is kept as it is. *)
Lemma decodeName_plain (name : string) :
  count_char "#" name = 0 → decodeName name = name.
Proof.
  induction name as [|c tail IH]; [done|].
  cbn [count_char]. destruct (decide (c = "#"%char)) as [|Hc]; [done|].
  intros Htail. specialize (IH Htail).
  destruct tail as [|h [|l rest]]; [done | done |].
  rewrite decodeName_unfold, decide_False by exact Hc.
  by rewrite IH.
Qed.

(** X1: [toc] annotates the tree it is given (same shape, ids and titles).
    In the document it leaves on a non-empty tree, the dictionary of every
    node carries the node's title as Title and, when the node's id contains
    no [#], the id as the name in Dest (an id with [#] in it goes through
    the decoding of [PDFName.of]); the Parent of a top-level node is the
    outline root, and the Parent of any other node is the reference of the
    node it is a child of. *)
Theorem toc_node_dictionary (items : list TOCItem) (s : State) :
  items ≠ [] →
  let d := document s in
  let forest := itemsWithRefs_of items d in
  let objects :=
    indirectObjects (doc_context (document (state_after (toc items) s))) in
  map erase forest = items ∧
  (∀ node, node ∈ nodes_of forest →
     ∃ dict, objects !! ref node = Some (PDFDict dict) ∧
       dict !! "Title" = Some (PDFHexString (toc_title (erase node))) ∧
       (count_char "#" (toc_id (erase node)) = 0 →
        dict !! "Dest" = Some (PDFName (toc_id (erase node))))) ∧
  (∀ top, top ∈ forest →
     ∃ dict, objects !! ref top = Some (PDFDict dict) ∧
       dict !! "Parent" = Some (PDFRefObj (outlineRef_of d))) ∧
  (∀ node child, node ∈ nodes_of forest → child ∈ children node →
     ∃ dict, objects !! ref child = Some (PDFDict dict) ∧
       dict !! "Parent" = Some (PDFRefObj (ref node))).
Proof.
  intros Hne d forest objects. subst forest objects.
  destruct (toc_run items s) as (_ & -> & _). fold d.
  split; [apply itemsWithRefs_erase|]. repeat split.
  - intros node Hin.
    destruct (nodes_of_Siblings _ _ Hin) as (sibs & j & Hs & Hj).
    exists (outlineItemDict sibs j node). split; [by apply toc_lookup_node|].
    destruct (erase_fields node) as [-> ->].
    destruct (outlineItemDict_base sibs j node) as (? & Hdest & _).
    split; [done|]. intros Hplain. rewrite Hdest. unfold PDFName_of.
    by rewrite decodeName_plain.
  - intros top [j Hj]%list_elem_of_lookup.
    exists (outlineItemDict (itemsWithRefs_of items d) j top).
    split; [apply toc_lookup_node; [done | constructor | done]|].
    destruct (outlineItemDict_base (itemsWithRefs_of items d) j top) as (_ & _ & ->).
    destruct (addRefs_spec items (outlineRef_of d) (nextRef (doc_context d)).2)
      as (_ & _ & _ & _ & Hparents).
    rewrite Forall_forall in Hparents. fold (itemsWithRefs_of items d) in Hparents.
    rewrite (Hparents top); [done|]. apply list_elem_of_lookup. eauto.
  - intros node child Hnode [k Hk]%list_elem_of_lookup.
    destruct (nodes_of_Siblings _ _ Hnode) as (sibs & j & Hs & Hj).
    pose proof (Siblings_children _ _ _ _ Hs Hj) as Hc.
    exists (outlineItemDict (children node) k child).
    split; [by apply toc_lookup_node|].
    destruct (outlineItemDict_base (children node) k child) as (_ & _ & ->).
    rewrite (addRefs_parents items (outlineRef_of d) (nextRef (doc_context d)).2
               node child); [done | exact Hnode |].
    apply list_elem_of_lookup. eauto.
Qed.

Lemma toc_node_dictionary_witness :
  sample_toc ≠ [] ∧
  (∃ dict,
     indirectObjects (doc_context (document (state_after (toc sample_toc) sample_state)))
       !! (12, 0) = Some (PDFDict dict) ∧
     dict !! "Parent" = Some (PDFRefObj (11, 0))) ∧
  (∃ dict,
     indirectObjects (doc_context (document (state_after (toc sample_toc) sample_state)))
       !! (15, 0) = Some (PDFDict dict) ∧
     dict !! "Title" = Some (PDFHexString "s21") ∧
     dict !! "Dest" = Some (PDFName "s21")).
Proof.
  split; [done|].
  pose proof (toc_node_dictionary sample_toc sample_state ltac:(done))
    as (_ & Hnodes & Htop & _).
  split.
  - exact (Htop
             (mkPDFTocItem "ch1" "One"
                [mkPDFTocItem "s1" "s1" [] (13, 0) (12, 0);
                 mkPDFTocItem "s2" "Two" [mkPDFTocItem "s21" "s21" [] (15, 0) (14, 0)]
                   (14, 0) (12, 0)]
                (12, 0) (11, 0))
             ltac:(vm_compute; left)).
  - destruct (Hnodes (mkPDFTocItem "s21" "s21" [] (15, 0) (14, 0))
                ltac:(vm_compute; do 3 right; left))
      as (dict & Hdict & Htitle & Hdest).
    exists dict. split; [exact Hdict|]. split; [exact Htitle | exact (Hdest eq_refl)].
Defined.




(** What [toc] leaves alone in the object table. *)
Lemma toc_document_frame (items : list TOCItem) (d : PDFDocument) (x : PDFRef) :
  (x.1 ≤ largestObjectNumber (doc_context d))%nat ∨ x.2 ≠ 0 →
  indirectObjects (doc_context (toc_document items d)) !! x
  = indirectObjects (doc_context d) !! x.
Proof.
  intros Hx. destruct (decide (items = [])) as [->|Hne]; [done|].
  rewrite toc_document_nonempty by assumption. cbn [doc_context].
  assert (Hfresh : ∀ y, y ∈ refs_of (itemsWithRefs_of items d) ∨ y = outlineRef_of d →
                        (largestObjectNumber (doc_context d) < y.1)%nat ∧ y.2 = 0).
  { intros y [Hy|Hy]; [|subst y; simpl; lia].
    split; [apply refs_of_addRefs_above in Hy; simpl in Hy; lia|].
    unfold itemsWithRefs_of in Hy.
    destruct (addRefs_spec items (outlineRef_of d) (nextRef (doc_context d)).2)
      as (_ & Hrefs & _).
    rewrite Hrefs in Hy. by apply list_elem_of_fmap in Hy as (n & -> & _). }
  rewrite assign_lookup_ne.
  - unfold addObjectsToPDF. rewrite addObjectsToPDF_frame.
    + by destruct (addRefs_spec items (outlineRef_of d) (nextRef (doc_context d)).2)
        as (_ & _ & _ & -> & _).
    + intros Hin. destruct (Hfresh x (or_introl Hin)). lia.
  - intros <-. destruct (Hfresh (outlineRef_of d) (or_intror eq_refl)). lia.
Qed.

(** X3: take the object table as the library holds it, with the catalog as
    the object at [root], one of the objects of the loaded document.  [toc]
    changes one object that was there, the catalog, and of the catalog only
    the Outlines entry; the object at any other reference whose number is at
    most the counter, or whose generation is not 0, is what it was.
    Information slots, pages, files and event trace are as before. *)
Theorem toc_frame (items : list TOCItem) (s : State) (root : PDFRef) :
  (root.1 ≤ largestObjectNumber (doc_context (document s)))%nat →
  let d := document s in
  let s' := state_after (toc items) s in
  let d' := document s' in
  (∀ x, x ≠ root →
        (x.1 ≤ largestObjectNumber (doc_context d))%nat ∨ x.2 ≠ 0 →
        table_with_catalog root d' !! x = table_with_catalog root d !! x) ∧
  (∃ entries,
     table_with_catalog root d' !! root = Some (PDFDict entries) ∧
     (∀ key, key ≠ "Outlines" → entries !! key = catalog d !! key) ∧
     (items ≠ [] → entries !! "Outlines" = Some (PDFRefObj (outlineRef_of d))) ∧
     (items = [] → entries = catalog d)) ∧
  info d' = info d ∧ pages d' = pages d ∧
  files s' = files s ∧ uuid_count s' = uuid_count s ∧ trace s' = trace s.
Proof.
  intros _ d s' d'. subst s' d'.
  destruct (toc_run items s) as (_ & Hdoc & Hfiles & Htrace).
  rewrite Hdoc, Hfiles, Htrace. fold d.
  split.
  { intros x Hroot Hx. unfold table_with_catalog.
    rewrite !lookup_insert_ne by done. by apply toc_document_frame. }
  split.
  { exists (catalog (toc_document items d)).
    split; [unfold table_with_catalog; by rewrite lookup_insert_eq|].
    destruct (decide (items = [])) as [->|Hne]; [done|].
    rewrite toc_document_nonempty by assumption. simpl.
    split; [intros key Hkey; by rewrite lookup_insert_ne|].
    split; [intros _; by rewrite lookup_insert_eq | done]. }
  destruct (decide (items = [])) as [->|Hne]; [done|].
  by rewrite toc_document_nonempty by assumption.
Qed.

Lemma toc_frame_witness :
  ((1, 0).1 ≤ largestObjectNumber (doc_context (document loaded_state)))%nat ∧
  let d' := document (state_after (toc sample_toc) loaded_state) in
  table_with_catalog (1, 0) d' !! (2, 0)
    = Some (PDFDict {[ "Type" := PDFName "Pages" ]}) ∧
  table_with_catalog (1, 0) d' !! (3, 0) = Some (PDFRaw []) ∧
  ∃ entries,
    table_with_catalog (1, 0) d' !! (1, 0) = Some (PDFDict entries) ∧
    entries !! "Pages" = Some (PDFRefObj (2, 0)) ∧
    entries !! "Outlines" = Some (PDFRefObj (5, 0)).
Proof.
  split; [vm_compute; lia|].
  pose proof (toc_frame sample_toc loaded_state (1, 0) ltac:(vm_compute; lia))
    as (Hold & (entries & Hroot & Hkeys & Houtlines & _) & _).
  split; [exact (Hold (2, 0) ltac:(done) ltac:(left; vm_compute; lia))|].
  split; [exact (Hold (3, 0) ltac:(done) ltac:(left; vm_compute; lia))|].
  exists entries. split; [exact Hroot|].
  split; [exact (Hkeys "Pages" ltac:(done)) | exact (Houtlines ltac:(done))].
Defined.

Lemma assign_largest (x : PDFRef) (o : PDFObject) (ctx : PDFContext) :
  (x.1 ≤ largestObjectNumber ctx)%nat →
  largestObjectNumber (assign x o ctx) = largestObjectNumber ctx.
Proof.
  intros Hx. unfold assign. simpl.
  destruct (Nat.ltb_spec (largestObjectNumber ctx) x.1); [lia | reflexivity].
Qed.

Lemma forEntries_largest (l : list PDFTocItem) :
  Forall (λ item, ∀ all i0 ctx,
            (∀ x, x ∈ refs_of (children item) → (x.1 ≤ largestObjectNumber ctx)%nat) →
            largestObjectNumber
              (forEntries (addObjectsToPDF_entry all) i0 (children item) ctx)
            = largestObjectNumber ctx) l →
  ∀ all i0 ctx,
    (∀ x, x ∈ refs_of l → (x.1 ≤ largestObjectNumber ctx)%nat) →
    largestObjectNumber (forEntries (addObjectsToPDF_entry all) i0 l ctx)
    = largestObjectNumber ctx.
Proof.
  induction 1 as [|item items Hitem _ IH]; intros all i0 ctx Hle; [reflexivity|].
  simpl. rewrite addObjectsToPDF_entry_unfold. unfold addObjectsToPDF.
  assert (Hstep : largestObjectNumber
            (forEntries (addObjectsToPDF_entry (children item)) 0 (children item)
               (assign (ref item) (PDFDict (outlineItemDict all i0 item)) ctx))
          = largestObjectNumber ctx).
  { rewrite Hitem.
    - apply assign_largest, Hle. rewrite refs_of_cons. set_solver.
    - intros x Hx. rewrite assign_largest; apply Hle; rewrite refs_of_cons; set_solver. }
  rewrite IH; [exact Hstep|].
  intros x Hx. rewrite Hstep. apply Hle. rewrite refs_of_cons. set_solver.
Qed.

Lemma addObjectsToPDF_largest (forest : list PDFTocItem) (ctx : PDFContext) :
  (∀ x, x ∈ refs_of forest → (x.1 ≤ largestObjectNumber ctx)%nat) →
  largestObjectNumber (addObjectsToPDF forest ctx) = largestObjectNumber ctx.
Proof.
  apply forEntries_largest. apply Forall_forall. intros item _. clear.
  induction item as [i t cs r p IH] using PDFTocItem_forall_ind.
  simpl. by apply forEntries_largest.
Qed.

Lemma toc_document_largest (items : list TOCItem) (d : PDFDocument) :
  items ≠ [] →
  largestObjectNumber (doc_context (toc_document items d))
  = S (largestObjectNumber (doc_context d) + length (toc_nodes items)).
Proof.
  intros Hne. rewrite toc_document_nonempty by assumption. cbn [doc_context].
  destruct (addRefs_spec items (outlineRef_of d) (nextRef (doc_context d)).2)
    as (_ & Hrefs & Hn & _).
  cbn [nextRef snd largestObjectNumber] in Hrefs, Hn.
  assert (Hpop : largestObjectNumber
            (addObjectsToPDF (itemsWithRefs_of items d)
               (addRefs items (outlineRef_of d) (nextRef (doc_context d)).2).2)
          = S (largestObjectNumber (doc_context d) + length (toc_nodes items))).
  { rewrite addObjectsToPDF_largest; [exact Hn|].
    intros x Hx. unfold itemsWithRefs_of in Hx. cbn [nextRef snd] in Hx.
    rewrite Hrefs in Hx. apply list_elem_of_fmap in Hx as (n & -> & Hin).
    apply elem_of_seq in Hin. cbn [nextRef snd] in *. simpl. lia. }
  rewrite assign_largest; [exact Hpop|]. rewrite Hpop. simpl. lia.
Qed.

Lemma itemsWithRefs_refs (items : list TOCItem) (d : PDFDocument) :
  refs_of (itemsWithRefs_of items d)
  = map ref_at (seq (S (S (largestObjectNumber (doc_context d))))
                  (length (toc_nodes items))).
Proof.
  unfold itemsWithRefs_of.
  by destruct (addRefs_spec items (outlineRef_of d) (nextRef (doc_context d)).2)
    as (_ & -> & _).
Qed.



(** The references [toc] takes on a non-empty tree each hold a
    dictionary. *)
Lemma toc_document_dictionaries (items : list TOCItem) (d : PDFDocument) (k : nat) :
  items ≠ [] →
  (largestObjectNumber (doc_context d) < k
   ≤ largestObjectNumber (doc_context (toc_document items d)))%nat →
  ∃ dict, indirectObjects (doc_context (toc_document items d)) !! (k, 0)
          = Some (PDFDict dict).
Proof.
  intros Hne Hk. rewrite toc_document_largest in Hk by assumption.
  destruct (decide (k = S (largestObjectNumber (doc_context d)))) as [->|Hroot].
  - eexists. by apply toc_lookup_outline.
  - assert (Hin : (k, 0) ∈ refs_of (itemsWithRefs_of items d)).
    { rewrite itemsWithRefs_refs. apply list_elem_of_fmap. exists k.
      split; [done|]. apply elem_of_seq. lia. }
    apply list_elem_of_fmap in Hin as (node & Hk' & Hnode).
    destruct (nodes_of_Siblings _ _ Hnode) as (sibs & j & Hs & Hj).
    exists (outlineItemDict sibs j node). rewrite Hk'. by apply toc_lookup_node.
Qed.

(** X5: calling [toc] a second time builds a second outline from new
    references and points the catalog at it; the dictionaries the first
    call stored, one at every reference it took, are still in the object
    table as they were, no longer reachable from the catalog entry. *)
Theorem toc_twice (first second : list TOCItem) (s : State) :
  first ≠ [] → second ≠ [] →
  let d0 := document s in
  let d1 := document (state_after (toc first) s) in
  let d2 := document (state_after (toc second) (state_after (toc first) s)) in
  catalog d1 !! "Outlines" = Some (PDFRefObj (outlineRef_of d0)) ∧
  catalog d2 !! "Outlines" = Some (PDFRefObj (outlineRef_of d1)) ∧
  outlineRef_of d1 ≠ outlineRef_of d0 ∧
  (∀ k, (largestObjectNumber (doc_context d0) < k
         ≤ largestObjectNumber (doc_context d1))%nat →
        ∃ dict,
          indirectObjects (doc_context d1) !! (k, 0) = Some (PDFDict dict) ∧
          indirectObjects (doc_context d2) !! (k, 0) = Some (PDFDict dict)).
Proof.
  intros H1 H2 d0 d1 d2. subst d0 d1 d2.
  destruct (toc_run second (state_after (toc first) s)) as (_ & -> & _).
  destruct (toc_run first s) as (_ & -> & _).
  set (d := document s). repeat split.
  - rewrite toc_document_nonempty by assumption. simpl. by rewrite lookup_insert_eq.
  - rewrite (toc_document_nonempty second) by assumption. simpl.
    by rewrite lookup_insert_eq.
  - unfold outlineRef_of at 1. simpl. rewrite toc_document_largest by assumption.
    unfold outlineRef_of. simpl. intros [=]. lia.
  - intros k Hk.
    destruct (toc_document_dictionaries first d k H1 Hk) as (dict & Hdict).
    exists dict. split; [exact Hdict|].
    rewrite toc_document_frame; [exact Hdict|]. left. simpl. lia.
Qed.

Lemma toc_twice_witness :
  sample_toc ≠ [] ∧ [leaf "again"] ≠ [] ∧
  catalog (document (state_after (toc [leaf "again"])
                       (state_after (toc sample_toc) sample_state))) !! "Outlines"
  = Some (PDFRefObj (17, 0)) ∧
  ∃ dict,
    indirectObjects
      (doc_context (document (state_after (toc [leaf "again"])
                                (state_after (toc sample_toc) sample_state))))
      !! (11, 0) = Some (PDFDict dict).
Proof.
  split; [done|]. split; [done|].
  pose proof (toc_twice sample_toc [leaf "again"] sample_state
                ltac:(done) ltac:(done)) as (_ & Hcat & _ & Hkept).
  split; [exact Hcat|].
  destruct (Hkept 11 ltac:(vm_compute; lia)) as (dict & _ & Hdict).
  by exists dict.
Defined.

(** ** More on metadata *)

Lemma with_catalog_compose (g h : gmap string PDFObject → gmap string PDFObject)
  (s : State) :
  with_catalog g (with_catalog h s) = with_catalog (λ c, g (h c)) s.
Proof. reflexivity. Qed.

Lemma with_catalog_ext (g h : gmap string PDFObject → gmap string PDFObject)
  (s : State) :
  g (catalog (document s)) = h (catalog (document s)) →
  with_catalog g s = with_catalog h s.
Proof. unfold with_catalog. by intros ->. Qed.

Lemma set_or_keep_twice {A} (new old : option A) :
  set_or_keep new (set_or_keep new old) = set_or_keep new old.
Proof. by destruct new. Qed.

(** X7: on a record whose present terms have a first entry, applying
    [metadata] a second time with the same record changes nothing. *)
Theorem metadata_idempotent (P : Platform) (tree : Meta) (s : State) :
  first_values_exist tree = true →
  metadata P tree (state_after (metadata P tree) s)
  = (Ok tt, state_after (metadata P tree) s).
Proof.
  intros Hwf. unfold state_after. rewrite !(metadata_run P tree _ Hwf).
  cbn [snd]. rewrite with_info_catalog, with_catalog_compose, with_info_compose.
  f_equal.
  transitivity (with_catalog (catalog_after tree)
                  (with_info (λ i, info_after P tree (info_after P tree i)) s)).
  { apply with_catalog_ext. unfold catalog_after.
    destruct (nonempty (first_text (tree !! metaTerms_language))); [|done].
    apply insert_insert_eq. }
  f_equal. apply with_info_ext.
  generalize (info (document s)). intros i. unfold info_after.
  cbn [Producer Title Author Subject Keywords Creator CreationDate].
  by rewrite !set_or_keep_twice.
Qed.

Lemma metadata_idempotent_witness :
  first_values_exist tree_book = true ∧
  outcome (metadata sample_platform tree_book)
    (state_after (metadata sample_platform tree_book) sample_state) = Ok tt.
Proof.
  split; [reflexivity|].
  exact (f_equal fst (metadata_idempotent sample_platform tree_book sample_state eq_refl)).
Defined.

Lemma bind_throw {A B} (m : M A) (k : A → M B) (s s1 : State) (e : exn) :
  m s = (Throw e, s1) → (m ≫= k) s = (Throw e, s1).
Proof. intros H. unfold mbind, M_bind. by rewrite H. Qed.

Lemma first_v_fail (entries : option (list MetaValue)) :
  has_first entries = false → first_v entries = Throw TypeError.
Proof. by destruct entries as [[|x l]|]. Qed.

Lemma is_bkp_fail (item : MetaValue) :
  role_has_first item = false → is_bkp item = Throw TypeError.
Proof.
  unfold role_has_first, is_bkp. destruct (r item) as [q|]; [|done].
  intros Hq. by rewrite (first_v_fail _ Hq).
Qed.

Lemma find_result_scanned (entries : list MetaValue) :
  find_result is_bkp entries
  = if forallb role_has_first (scanned entries)
    then Ok (List.find has_bkp_role entries)
    else Throw TypeError.
Proof.
  induction entries as [|item entries IH]; [done|]. simpl.
  destruct (role_has_first item) eqn:Hitem; simpl.
  - rewrite (is_bkp_ok _ Hitem). destruct (has_bkp_role item); [done | exact IH].
  - by rewrite (is_bkp_fail _ Hitem).
Qed.

Lemma bkp_contributor_scanned (tree : Meta) :
  bkp_contributor tree
  = if forallb role_has_first (scanned (default [] (tree !! metaTerms_contributor)))
    then Ok (v <$> first_bkp tree)
    else Throw TypeError.
Proof.
  unfold bkp_contributor, first_bkp.
  destruct (tree !! metaTerms_contributor) as [entries|]; simpl; [|done].
  rewrite find_result_scanned. by destruct (forallb _ _).
Qed.

Ltac run_metadata :=
  repeat first
    [ erewrite bind_run by apply setProducer_run
    | erewrite bind_run by apply language_run
    | erewrite bind_run by (apply if_text_run; reflexivity)
    | erewrite bind_run by apply keywords_run
    | erewrite bind_run by reflexivity ].

Ltac stops_here :=
  run_metadata; erewrite bind_throw by reflexivity; reflexivity.

(** X8: [metadata] returns normally exactly when every first entry it
    reads is there: the title, description and language terms and the date
    term it selects are missing or non-empty, and no contributor entry that
    [find] visits (up to the first one with the book-producer role) has a
    role qualifier without entries.  Otherwise it throws a [TypeError], and
    never any other error. *)
Theorem metadata_returns_iff (P : Platform) (tree : Meta) (s : State) :
  outcome (metadata P tree) s = if reads_ok tree then Ok tt else Throw TypeError.
Proof.
  unfold outcome, reads_ok, metadata, lift_result.
  rewrite bkp_contributor_scanned.
  destruct (has_first (tree !! metaTerms_title)) eqn:Ht;
    [rewrite (first_v_ok _ Ht) | rewrite (first_v_fail _ Ht); stops_here].
  destruct (has_first (tree !! metaTerms_description)) eqn:Hd;
    [rewrite (first_v_ok _ Hd) | rewrite (first_v_fail _ Hd); stops_here].
  destruct (forallb role_has_first _) eqn:Hc; [|stops_here].
  destruct (has_first (tree !! metaTerms_language)) eqn:Hl;
    [rewrite (first_v_ok _ Hl) | rewrite (first_v_fail _ Hl); stops_here].
  destruct (has_first (created_or_date tree)) eqn:Hcd;
    [rewrite (first_v_ok _ Hcd) | rewrite (first_v_fail _ Hcd); stops_here].
  run_metadata. by erewrite if_text_run by reflexivity.
Qed.

(** X9: [metadata] is not all-or-nothing.  When the title term has a first
    entry and the description term is listed without entries, the call
    throws a [TypeError] after Producer, Title and Author have been
    written; Subject, Keywords, Creator and CreationDate keep their former
    values, and so does the catalog, where the language would go. *)
Theorem metadata_partial_write (P : Platform) (tree : Meta) (s : State) :
  has_first (tree !! metaTerms_title) = true →
  tree !! metaTerms_description = Some [] →
  let i := info (document s) in
  let i' := info (document (state_after (metadata P tree) s)) in
  outcome (metadata P tree) s = Throw TypeError ∧
  Producer i' = Some "Vivliostyle" ∧
  Title i' = set_or_keep (nonempty (first_text (tree !! metaTerms_title))) (Title i) ∧
  Author i' =
    set_or_keep
      (nonempty ((λ entries, String.concat "; " (map v entries))
                   <$> tree !! metaTerms_creator))
      (Author i) ∧
  Subject i' = Subject i ∧ Keywords i' = Keywords i ∧ Creator i' = Creator i ∧
  catalog (document (state_after (metadata P tree) s)) = catalog (document s) ∧
  CreationDate i' = CreationDate i.
Proof.
  intros Ht Hd i i'. subst i i'. unfold outcome, state_after, metadata, lift_result.
  rewrite (first_v_ok _ Ht), Hd. cbn [first_v].
  run_metadata. erewrite bind_throw by reflexivity. cbn [fst snd].
  rewrite !with_info_compose. unfold with_info. cbn [document info].
  generalize (info (document s)). intros [pr ti au su ke cr da].
  unfold set_or_keep.
  destruct (nonempty (first_text (tree !! metaTerms_title))); slots;
    destruct (nonempty (_ <$> tree !! metaTerms_creator)); slots; by repeat split.
Qed.

Lemma metadata_partial_write_witness :
  has_first (tree_no_description_entry !! metaTerms_title) = true ∧
  tree_no_description_entry !! metaTerms_description = Some [] ∧
  outcome (metadata sample_platform tree_no_description_entry) sample_state
    = Throw TypeError ∧
  Title (info (document (state_after (metadata sample_platform
                                        tree_no_description_entry) sample_state)))
    = Some "A Book" ∧
  catalog (document (state_after (metadata sample_platform
                                    tree_no_description_entry) sample_state))
    !! "Lang" = None.
Proof.
  split; [reflexivity|]. split; [reflexivity|].
  destruct (metadata_partial_write sample_platform tree_no_description_entry
              sample_state eq_refl eq_refl)
    as (Hthrow & _ & Htitle & _ & _ & _ & _ & Hlang & _).
  split; [exact Hthrow|]. split; [exact Htitle | by rewrite Hlang].
Defined.

(** ** More on the cover *)

(** Reading, decoding and drawing, spelled out by cases. *)
Lemma read_embed_draw_run (P : Platform) (decode : bytes → option PDFImage)
  (path : string) (s : State) :
  (bytes_read ← readFile path; image ← embed P decode bytes_read;
   drawCover P image) s
  = let s1 := mkState (document s) (files s) (uuid_count s)
                (trace s ++ [ReadFile path]) in
    match files s !! path with
    | None => (Throw (IOError path), s1)
    | Some data =>
        match decode data with
        | None => (Throw DecodeError, s1)
        | Some image =>
            let s2 :=
              mkState
                (mkPDFDocument (embed_objects P image (doc_context (document s)))
                   (catalog (document s)) (info (document s)) (pages (document s)))
                (files s) (uuid_count s) (trace s ++ [ReadFile path]) in
            match pages (document s) with
            | [] => (Throw TypeError, s2)
            | page0 :: _ => drawCover P image s2
            end
        end
    end.
Proof.
  unfold readFile, file_contents, embed, emit, modify_document, mbind, M_bind.
  cbn zeta. cbn [files].
  destruct (files s !! path) as [data|]; [|done].
  destruct (decode data) as [image|]; [|done]. cbn [mret M_ret document].
  destruct (pages (document s)) as [|page0 rest] eqn:Hpages; [|done].
  unfold drawCover, getPage, getWidth, get_document, mbind, M_bind.
  reflexivity.
Qed.

Lemma cover_supported_run (P : Platform) (c : CoverItem) (root pathName : string)
  (s : State) :
  url_pathname P (src c) = Some pathName → pathName ≠ "" →
  mediaType c = "image/png" ∨ mediaType c = "image/jpeg" →
  cover P (Some c) root s
  = (bytes_read ← readFile (path_join P root pathName);
     image ← embed P (if decide (mediaType c = "image/png")
                      then embedPng P else embedJpg P) bytes_read;
     drawCover P image) s.
Proof.
  intros Hurl Hpath Hmedia. unfold cover. rewrite Hurl.
  rewrite decide_False by assumption.
  destruct (decide (mediaType c = "image/png")) as [Hpng|Hpng]; [done|].
  destruct Hmedia as [?|Hjpg]; [done|]. by rewrite decide_True.
Qed.

(** X10: what [cover] does to the file system, whatever its arguments.  It
    never writes a file.  It reads one file, the one at
    [path.join(root, pathname)], exactly when the cover is there, its src
    has a non-empty path and its media type is image/png or image/jpeg, and
    makes no other access; otherwise it returns at once and nothing has
    changed.  The pages afterwards are the old pages, or the old pages with
    one page in front. *)
Theorem cover_effects (P : Platform) (c : option CoverItem) (root : string)
  (s : State) :
  let s' := state_after (cover P c root) s in
  files s' = files s ∧
  trace s' = (trace s ++ match cover_image_path P c root with
                         | Some path => [ReadFile path]
                         | None => []
                         end)%list ∧
  (pages (document s') = pages (document s) ∨
   ∃ page, pages (document s') = page :: pages (document s)) ∧
  (cover_image_path P c root = None →
   outcome (cover P c root) s = Ok tt ∧ s' = s).
Proof.
  intros s'. subst s'. unfold state_after, outcome.
  assert (Hskip : ∀ item, cover_image_path P (Some item) root = None →
                          cover P (Some item) root s = (Ok tt, s)).
  { intros item. unfold cover_image_path. intros Hnone. apply cover_skipped.
    destruct (url_pathname P (src item)) as [pathName|]; [|auto].
    destruct (bool_decide_reflect
                (pathName ≠ "" ∧ (mediaType item = "image/png" ∨
                                   mediaType item = "image/jpeg"))) as [|Hno];
      [done|].
    destruct (decide (pathName = "")) as [->|Hpath]; [auto|].
    left. split; intros Hm; apply Hno; auto. }
  destruct (cover_image_path P c root) as [path|] eqn:Hpath.
  - destruct c as [item|]; [|done]. unfold cover_image_path in Hpath.
    destruct (url_pathname P (src item)) as [pathName|] eqn:Hurl; [|done].
    destruct (bool_decide_reflect
                (pathName ≠ "" ∧ (mediaType item = "image/png" ∨
                                   mediaType item = "image/jpeg")))
      as [[Hne Hmedia]|]; [|done].
    injection Hpath as <-.
    rewrite (cover_supported_run P item root pathName s Hurl Hne Hmedia).
    rewrite read_embed_draw_run. cbn zeta.
    destruct (files s !! _) as [data|]; [|by repeat split; auto].
    destruct (_ data) as [image|]; [|by repeat split; auto].
    destruct (pages (document s)) as [|page0 rest] eqn:Hpages;
      [by repeat split; auto|].
    erewrite drawCover_run by reflexivity.
    cbn zeta. cbn [fst snd]. cbn [files document pages trace]. rewrite ?Hpages.
    repeat split; eauto; discriminate.
  - rewrite app_nil_r. destruct c as [item|]; [|by repeat split; auto].
    rewrite (Hskip item Hpath). by repeat split; auto.
Qed.

Lemma cover_effects_witness :
  cover_image_path cover_platform (Some png_cover) "/book" = Some "/book/cover.png" ∧
  trace (state_after (cover cover_platform (Some png_cover) "/book") cover_state)
    = [ReadFile "/book/cover.png"] ∧
  cover_image_path sample_platform (Some gif_cover) "/book" = None ∧
  state_after (cover sample_platform (Some gif_cover) "/book") sample_state
    = sample_state.
Proof.
  split; [reflexivity|].
  split; [exact (proj1 (proj2 (cover_effects cover_platform (Some png_cover) "/book"
                                  cover_state)))|].
  split; [reflexivity|].
  exact (proj2 (proj2 (proj2 (proj2 (cover_effects sample_platform (Some gif_cover)
                                       "/book" sample_state))) eq_refl)).
Defined.

(** X11: how [cover] fails, for a cover of supported media type whose src
    has a non-empty path.  A missing file is an I/O error naming the joined
    path, raised by the read before the PDF library is called, so the
    document is as it was.  A file that does not decode is a decode error.
    When the file is read and decoded but the document has no page,
    [getPage(0)] returns [undefined] and the call of [getWidth] on it is a
    [TypeError].  In each case one file read has been made and no page has
    been inserted. *)
Theorem cover_failures (P : Platform) (c : CoverItem) (root pathName : string)
  (s : State) :
  url_pathname P (src c) = Some pathName → pathName ≠ "" →
  mediaType c = "image/png" ∨ mediaType c = "image/jpeg" →
  let imagePath := path_join P root pathName in
  let decode := if decide (mediaType c = "image/png")
                then embedPng P else embedJpg P in
  let s' := state_after (cover P (Some c) root) s in
  (files s !! imagePath = None →
   cover P (Some c) root s
   = (Throw (IOError imagePath),
      mkState (document s) (files s) (uuid_count s)
        (trace s ++ [ReadFile imagePath]))) ∧
  (∀ data, files s !! imagePath = Some data → decode data = None →
           outcome (cover P (Some c) root) s = Throw DecodeError ∧
           pages (document s') = pages (document s) ∧
           trace s' = (trace s ++ [ReadFile imagePath])%list) ∧
  (∀ data image, files s !! imagePath = Some data → decode data = Some image →
                 pages (document s) = [] →
                 outcome (cover P (Some c) root) s = Throw TypeError ∧
                 pages (document s') = [] ∧
                 trace s' = (trace s ++ [ReadFile imagePath])%list).
Proof.
  intros Hurl Hpath Hmedia imagePath decode s'. subst imagePath decode s'.
  unfold outcome, state_after.
  rewrite (cover_supported_run P c root pathName s Hurl Hpath Hmedia).
  rewrite read_embed_draw_run. cbn zeta. split; [by intros ->|]. split.
  - intros data Hfile Hdecode. by rewrite Hfile, Hdecode.
  - intros data image Hfile Hdecode Hpages. by rewrite Hfile, Hdecode, Hpages.
Qed.

Lemma cover_failures_witness :
  url_pathname sample_platform (src png_cover) = Some "cover.png" ∧
  "cover.png" ≠ "" ∧
  (mediaType png_cover = "image/png" ∨ mediaType png_cover = "image/jpeg") ∧
  files sample_state !! path_join sample_platform "/book" "cover.png" = None ∧
  outcome (cover sample_platform (Some png_cover) "/book") sample_state
    = Throw (IOError "/book/cover.png") ∧
  files empty_document_state !! path_join cover_platform "/book" "cover.png"
    = Some [] ∧
  pages (document empty_document_state) = [] ∧
  outcome (cover cover_platform (Some png_cover) "/book") empty_document_state
    = Throw TypeError.
Proof.
  split; [reflexivity|]. split; [done|]. split; [by left|]. split; [reflexivity|].
  split.
  { exact (f_equal fst
             (proj1 (cover_failures sample_platform png_cover "/book" "cover.png"
                       sample_state eq_refl ltac:(done) (or_introl eq_refl))
                eq_refl)). }
  split; [reflexivity|]. split; [reflexivity|].
  exact (proj1
           (proj2 (proj2 (cover_failures cover_platform png_cover "/book" "cover.png"
                            empty_document_state eq_refl ltac:(done)
                            (or_introl eq_refl)))
              [] (mkPDFImage 1120 800 []) eq_refl eq_refl eq_refl)).
Defined.

(** ** More on export *)

(** X13: how [save] ends when [pressReady] is set.  If the temporary file
    cannot be written, the call throws the I/O error for the temporary path
    and the transform is not invoked.  If it is written, the transform runs
    on a file system in which the temporary file holds the serialized
    bytes; the call returns when the transform succeeds and throws when it
    fails, and [save] does nothing after the transform: the file system is
    as the transform left it, and in particular [save] does not remove the
    temporary file. *)
Theorem save_pressReady_failures (P : Platform) (output : string) (s : State) :
  let tmp := tmp_path P (uuid_source P (uuid_count s)) in
  let pdf := serialize P (document s) in
  let s' := state_after (save P output true) s in
  (writable P tmp = false →
   outcome (save P output true) s = Throw (IOError tmp) ∧
   trace s' = (trace s ++ [WriteFile tmp pdf])%list) ∧
  (writable P tmp = true →
   let built := pressReady_build P tmp output (<[tmp := pdf]> (files s)) in
   outcome (save P output true) s = (if built.1 then Ok tt else Throw BuildError) ∧
   files s' = built.2 ∧
   trace s' = (trace s ++ [WriteFile tmp pdf; PressReadyBuild tmp output])%list).
Proof.
  intros tmp pdf s'. subst tmp pdf s'. unfold_save. simpl. split.
  - by intros ->.
  - intros ->. simpl. split; [done|]. split; [done|]. by rewrite <- app_assoc.
Qed.

Lemma save_pressReady_failures_witness :
  writable failing_build_platform
    (tmp_path failing_build_platform
       (uuid_source failing_build_platform (uuid_count sample_state))) = true ∧
  outcome (save failing_build_platform "book.pdf" true) sample_state
    = Throw BuildError ∧
  files (state_after (save failing_build_platform "book.pdf" true) sample_state)
    !! sample_tmp_path = Some [].
Proof.
  split; [reflexivity|].
  destruct (proj2 (save_pressReady_failures failing_build_platform "book.pdf"
                     sample_state) eq_refl) as (Hthrow & Hfiles & _).
  split; [exact Hthrow|]. by rewrite Hfiles.
Defined.

(** ** More on counting and allocation *)

Lemma nodes_of_app (a b : list PDFTocItem) :
  nodes_of (a ++ b) = (nodes_of a ++ nodes_of b)%list.
Proof. unfold nodes_of. by rewrite flat_map_app. Qed.

(** X14: [countAll] counts every node of a forest exactly once: its value
    is the number of nodes, an item counting for one more than its children
    and the rest of the sequence together.  So it is additive over
    concatenation, at least the number of top-level items, and equal to it
    exactly when no item has children. *)
Theorem countAll_exact (a b : list PDFTocItem) :
  countAll a = length (nodes_of a) ∧
  countAll [] = 0 ∧
  (∀ item rest,
     countAll (item :: rest) = S (countAll (children item) + countAll rest)) ∧
  countAll (a ++ b) = countAll a + countAll b ∧
  (length a ≤ countAll a)%nat ∧
  (countAll a = length a ↔ Forall (λ item, children item = []) a).
Proof.
  assert (Hbound : ∀ l, (length l ≤ countAll l)%nat).
  { induction l as [|c l IH]; [done|]. rewrite countAll_cons. simpl. lia. }
  split; [apply countAll_nodes|]. split; [done|].
  split; [intros item rest; by rewrite countAll_cons, countAll_children_eq|].
  split; [by rewrite !countAll_nodes, nodes_of_app, length_app|].
  split; [apply Hbound|].
  induction a as [|c a IH]; [by split|].
  rewrite countAll_cons, countAll_children_eq, Forall_cons. simpl.
  pose proof (Hbound a) as Ha. pose proof (Hbound (children c)) as Hc.
  split.
  - intros Heq. split; [|apply IH; lia].
    destruct (children c); [done | simpl in Hc; lia].
  - intros [Hleaf Hrest]. apply IH in Hrest. rewrite Hleaf. simpl. lia.
Qed.

(** X15: [addRefs] keeps the shape and the ids and titles of the tree,
    numbers the nodes consecutively in pre-order starting one above the
    counter (generation 0), gives every top-level item the parent reference
    it was called with and every other node the reference of its parent,
    advances the counter by the number of nodes, and stores nothing. *)
Theorem addRefs_numbering (items : list TOCItem) (parent : PDFRef) (ctx : PDFContext) :
  let annotated := (addRefs items parent ctx).1 in
  let ctx' := (addRefs items parent ctx).2 in
  map erase annotated = items ∧
  map ref (nodes_of annotated)
    = map (λ k, (k, 0)) (seq (S (largestObjectNumber ctx)) (length (toc_nodes items))) ∧
  Forall (λ top, parentRef top = parent) annotated ∧
  (∀ node child, node ∈ nodes_of annotated → child ∈ children node →
                 parentRef child = ref node) ∧
  largestObjectNumber ctx' = largestObjectNumber ctx + length (toc_nodes items) ∧
  indirectObjects ctx' = indirectObjects ctx.
Proof.
  intros annotated ctx'. subst annotated ctx'.
  destruct (addRefs_spec items parent ctx) as (He & Hr & Hn & Ho & Hp).
  repeat split; try assumption.
  intros node child. apply addRefs_parents.
Qed.

(** ** Page sizes *)

Lemma split_nonempty (sep : Ascii.ascii) (s : string) : split sep s ≠ [].
Proof.
  induction s as [|c s IH]; [done|]. simpl.
  destruct (decide (c = sep)); [done|]. by destruct (split sep s).
Qed.

Lemma split_length (sep : Ascii.ascii) (s : string) :
  length (split sep s) = S (count_char sep s).
Proof.
  induction s as [|c s IH]; [done|]. simpl.
  destruct (decide (c = sep)); simpl; [by rewrite IH|].
  pose proof (split_nonempty sep s). destruct (split sep s); [done|].
  simpl in *. lia.
Qed.

Lemma split_none (sep : Ascii.ascii) (s : string) :
  count_char sep s = 0 → split sep s = [s].
Proof.
  induction s as [|c s IH]; [done|]. simpl.
  destruct (decide (c = sep)); [done|]. simpl. intros H. by rewrite IH.
Qed.

Lemma split_append (sep : Ascii.ascii) (w rest : string) :
  count_char sep w = 0 →
  split sep (w ++ String sep rest) = w :: split sep rest.
Proof.
  induction w as [|c w IH]; simpl.
  - intros _. by rewrite decide_True.
  - destruct (decide (c = sep)); [done|]. simpl. intros H. by rewrite IH.
Qed.

Lemma split_head_prefix (sep : Ascii.ascii) (s piece : string) :
  head (split sep s) = Some piece → String.prefix piece s = true.
Proof.
  revert piece. induction s as [|c s IH]; intros piece; simpl.
  - by intros [= <-].
  - destruct (decide (c = sep)); [by intros [= <-]|].
    pose proof (split_nonempty sep s). destruct (split sep s) as [|p ps]; [done|].
    intros [= <-]. simpl. destruct (ascii_dec c c); [|done]. by apply IH.
Qed.

(** X16: [parsePageSize] throws exactly when the text holds two or more
    commas, and the error is [Cannot parse size: ] followed by the text. *)
Theorem parsePageSize_throws_iff (size : string) :
  ((∃ e, parsePageSize size = Thrown e) ↔ (2 ≤ count_char "," size)%nat) ∧
  (∀ e, parsePageSize size = Thrown e → e = Error ("Cannot parse size: " ++ size)).
Proof.
  unfold parsePageSize. pose proof (split_length "," size) as Hlen.
  destruct (split "," size) as [|w [|h [|o others]]]; simpl in Hlen.
  - lia.
  - split; [split; [by intros [e ?] | lia] | done].
  - split; [split; [|lia] | by destruct (_ && _)].
    intros [e He]. by destruct (_ && _).
  - split; [split; [lia | eauto] | by intros e [= <-]].
Qed.

(** X17: the shapes [parsePageSize] returns.  A text without comma is a
    format name, the empty text included.  [w,h] with both parts non-empty
    is a width and a height; when either part is empty the text before the
    comma is taken as a format name and the other part is dropped.  A
    format name returned is always the beginning of the text, so the
    built-in name Letter is never supplied. *)
Theorem parsePageSize_shapes (w h : string) :
  count_char "," w = 0 → count_char "," h = 0 →
  parsePageSize w = Returned (SizeFormat w) ∧
  (w ≠ "" → h ≠ "" →
   parsePageSize (w ++ "," ++ h) = Returned (SizeWidthHeight w h)) ∧
  (w = "" ∨ h = "" → parsePageSize (w ++ "," ++ h) = Returned (SizeFormat w)) ∧
  (∀ size format, parsePageSize size = Returned (SizeFormat format) →
                  String.prefix format size = true).
Proof.
  intros Hw Hh. unfold parsePageSize. repeat split.
  - by rewrite (split_none _ _ Hw).
  - intros Hwne Hhne. change ("," ++ h) with (String "," h).
    rewrite (split_append _ _ _ Hw), (split_none _ _ Hh). simpl.
    by rewrite !decide_False.
  - intros Hempty. change ("," ++ h) with (String "," h).
    rewrite (split_append _ _ _ Hw), (split_none _ _ Hh). simpl.
    destruct Hempty as [->| ->]; [done|]. by destruct (decide (w = "")).
  - intros size format.
    pose proof (split_head_prefix "," size) as Hhead.
    pose proof (split_nonempty "," size) as Hne.
    destruct (split "," size) as [|p [|q [|o others]]]; [done|..].
    + intros [= <-]. by apply Hhead.
    + destruct (_ && _); [done|]. intros [= <-]. by apply Hhead.
    + done.
Qed.

Lemma parsePageSize_shapes_witness :
  count_char "," "10cm" = 0 ∧ count_char "," "20cm" = 0 ∧
  parsePageSize "10cm,20cm" = Returned (SizeWidthHeight "10cm" "20cm") ∧
  parsePageSize "" = Returned (SizeFormat "").
Proof.
  split; [reflexivity|]. split; [reflexivity|]. split.
  - exact (proj1 (proj2 (parsePageSize_shapes "10cm" "20cm" eq_refl eq_refl))
             ltac:(done) ltac:(done)).
  - exact (proj1 (parsePageSize_shapes "" "" eq_refl eq_refl)).
Defined.

(** ** Themes *)

Lemma truthy_Some (text : string) : truthy (Some text) = true ↔ text ≠ "".
Proof. simpl. by destruct (decide (text = "")). Qed.

(** X18: [parseTheme] returns [undefined] exactly when the locator is
    missing or empty; for any other locator it returns a theme or throws. *)
Theorem parseTheme_undefined_iff (C : ConfigPlatform) (locator : option string)
  (contextDir : string) :
  parseTheme C locator contextDir = Returned None ↔ truthy locator = false.
Proof.
  unfold parseTheme. destruct locator as [l|]; [|done]. simpl.
  destruct (decide (l = "")); [done|].
  destruct (_ || _); [done|].
  destruct (negb _); [|done].
  destruct (parseStyleLocator C _ l) as [[[name style]|]|e]; done.
Qed.

(** X19: a locator that starts with [http://] or [https://] is taken as
    it is: the theme is a URI theme located at the locator and named by its
    base name, whatever the context directory and whatever the file system
    and the package resolver hold. *)
Theorem parseTheme_uri (C C' : ConfigPlatform) (locator contextDir contextDir' : string) :
  is_url locator = true →
  parseTheme C (Some locator) contextDir
    = Returned (Some (UriTheme (basename C locator) locator)) ∧
  (basename C locator = basename C' locator →
   parseTheme C (Some locator) contextDir = parseTheme C' (Some locator) contextDir').
Proof.
  unfold is_url, parseTheme. intros Hurl.
  assert (Hne : locator ≠ "") by (intros ->; done).
  rewrite !decide_False, Hurl by assumption. split; [done|]. by intros ->.
Qed.

Lemma parseTheme_uri_witness :
  is_url "https://example.org/theme.css" = true ∧
  parseTheme sample_config_platform (Some "https://example.org/theme.css") "/work"
  = Returned (Some (UriTheme "https://example.org/theme.css"
                      "https://example.org/theme.css")).
Proof.
  split; [reflexivity|].
  exact (proj1 (parseTheme_uri sample_config_platform sample_config_platform
                  "https://example.org/theme.css" "/work" "/work" eq_refl)).
Defined.

(** X20: which style a package theme gets.  For a locator that is not a
    URL and whose package root does not end in [.css], when a
    [package.json] is there and is read: the field
    [vivliostyle.theme.style], if it is a string, decides alone.  A
    non-empty string gives a package theme with that style, located at the
    package root; the empty string is an error even when [style] or [main]
    name a file; and when none of the four fields is set the error message
    prints [undefined]. *)
Theorem parseTheme_package_style (C : ConfigPlatform) (locator contextDir : string)
  (packageJson : PackageJson) :
  locator ≠ "" → is_url locator = false →
  let root := default (resolve2 C contextDir locator) (resolvePkg C locator contextDir) in
  from_option (λ d, endsWith d ".css") false (resolvePkg C locator contextDir) = false →
  existsSync C (joinPath C root "package.json") = true →
  readPackageJson C (joinPath C root "package.json") = Returned packageJson →
  (∀ style, pj_theme_style packageJson = JsonString style → style ≠ "" →
     parseTheme C (Some locator) contextDir
     = Returned (Some (PackageTheme (pj_name packageJson) root style))) ∧
  (pj_theme_style packageJson = JsonString "" →
     parseTheme C (Some locator) contextDir
     = Thrown (Error ("invalid style file:  while parsing " ++ locator))) ∧
  (pj_theme_style packageJson = Missing → pj_style packageJson = Missing →
   pj_main packageJson = Missing → pj_theme_stylesheet packageJson = Missing →
     parseTheme C (Some locator) contextDir
     = Thrown (Error ("invalid style file: undefined while parsing " ++ locator))).
Proof.
  intros Hne Hurl root Hcss Hexists Hread. subst root.
  unfold parseTheme, parseStyleLocator. unfold is_url in Hurl.
  rewrite decide_False, Hurl, Hcss by assumption. simpl negb. cbn iota.
  rewrite Hexists. simpl negb. cbn iota. rewrite Hread. simpl.
  repeat split.
  - intros style -> Hstyle. simpl. by rewrite decide_False.
  - by intros ->.
  - by intros -> -> -> ->.
Qed.

Lemma parseTheme_package_style_witness :
  "mytheme" ≠ "" ∧ is_url "mytheme" = false ∧
  existsSync empty_style_platform
    (joinPath empty_style_platform
       (default (resolve2 empty_style_platform "/work" "mytheme")
          (resolvePkg empty_style_platform "mytheme" "/work")) "package.json") = true ∧
  parseTheme empty_style_platform (Some "mytheme") "/work"
  = Thrown (Error "invalid style file:  while parsing mytheme").
Proof.
  split; [done|]. split; [reflexivity|]. split; [reflexivity|].
  exact (proj1 (proj2 (parseTheme_package_style empty_style_platform "mytheme" "/work"
                         (mkPackageJson (JsonString "") Missing (JsonString "main.css")
                            Missing (JsonString "theme"))
                         ltac:(done) eq_refl eq_refl eq_refl eq_refl))
           eq_refl).
Defined.

(** ** Merged settings *)

Lemma Outcome_bind_Returned {A B} (m : Outcome A) (k : A → Outcome B) (b : B) :
  m ≫= k = Returned b → ∃ a, m = Returned a ∧ k a = Returned b.
Proof. destruct m as [a|e]; [eauto | done]. Qed.

(** What one call of [parseEntry] does to the entry and to the themes. *)
Lemma parseEntry_returns (C : ConfigPlatform) (ecd ad title : string) (entry : Entry)
  (themes themes' : list ParsedTheme) (parsed : ParsedEntry) :
  parseEntry C ecd ad title entry themes = Returned (parsed, themes') →
  source_path parsed = resolve2 C ecd (entry_path entry) ∧
  target_path parsed
    = replace_md (resolve2 C ad (relative C ecd (source_path parsed))) ∧
  pe_type parsed = (if endsWith (source_path parsed) ".html" then html else markdown) ∧
  (∃ text, pe_title parsed = Some text ∧
           (∀ own, entry_title entry = Some own → text = own)) ∧
  (∃ added, themes' = (themes ++ added)%list) ∧
  (NoDup (map location themes) → NoDup (map location themes')) ∧
  (∀ t, pe_theme parsed = Some t → location t ∈ map location themes').
Proof.
  unfold parseEntry. cbn zeta.
  intros (metadata & _ & Hrest)%Outcome_bind_Returned.
  apply Outcome_bind_Returned in Hrest as (own & _ & Hrest).
  injection Hrest as <- <-. cbn [source_path target_path pe_type pe_title pe_theme].
  split; [done|]. split; [done|]. split; [done|]. split.
  { destruct (entry_title entry) as [t|]; simpl.
    - exists t. split; [done|]. by intros mine [= <-].
    - destruct metadata.1; simpl; eexists; (split; [done|]); done. }
  destruct (nullish own (nullish metadata.2 (head themes))) as [t|] eqn:Htheme.
  - destruct (forallb _ themes) eqn:Hnew.
    + split; [by exists [t]|]. split.
      * intros Hnd. rewrite map_app. simpl. apply NoDup_app. split; [done|].
        split; [|apply NoDup_singleton].
        intros x Hx ->%list_elem_of_singleton.
        apply list_elem_of_fmap in Hx as (known & Hloc & Hknown).
        rewrite forallb_forall in Hnew.
        specialize (Hnew known ltac:(by apply list_elem_of_In)).
        apply negb_true_iff, bool_decide_eq_false in Hnew. congruence.
      * intros t' [= <-]. rewrite map_app. set_solver.
    + split; [exists []; by rewrite app_nil_r|]. split; [done|].
      intros t' [= <-].
      apply not_true_iff_false in Hnew. rewrite forallb_forall in Hnew.
      destruct (decide (location t ∈ map location themes)) as [|Hnot]; [done|].
      exfalso. apply Hnew. intros known Hknown%list_elem_of_In.
      apply negb_true_iff, bool_decide_eq_false. intros Heq. apply Hnot.
      rewrite <- Heq. by apply list_elem_of_fmap_2.
  - split; [exists []; by rewrite app_nil_r|]. split; [done|]. done.
Qed.

Lemma parseEntries_returns (C : ConfigPlatform) (ecd ad title : string)
  (raw : list Entry) :
  ∀ (themes themes' : list ParsedTheme) (parsed : list ParsedEntry),
    parseEntries C ecd ad title raw themes = Returned (parsed, themes') →
    map source_path parsed = map (λ e, resolve2 C ecd (entry_path e)) raw ∧
    (∃ added, themes' = (themes ++ added)%list) ∧
    (NoDup (map location themes) → NoDup (map location themes')) ∧
    (∀ e t, e ∈ parsed → pe_theme e = Some t → location t ∈ map location themes') ∧
    Forall2 (λ entry e,
               target_path e
                 = replace_md (resolve2 C ad (relative C ecd (source_path e))) ∧
               ∃ text, pe_title e = Some text ∧
                       (∀ own, entry_title entry = Some own → text = own))
      raw parsed.
Proof.
  induction raw as [|entry rest IH]; intros themes themes' parsed; simpl.
  { intros [= <- <-]. repeat split; try done.
    - exists []. by rewrite app_nil_r.
    - intros e t He. by apply elem_of_nil in He. }
  intros ([first themes1] & Hfirst & Hrest)%Outcome_bind_Returned.
  apply Outcome_bind_Returned in Hrest as ([others themes2] & Hothers & Hret).
  injection Hret as <- <-.
  destruct (parseEntry_returns _ _ _ _ _ _ _ _ Hfirst)
    as (Hsrc & Htgt & _ & Htitle & [added1 ->] & Hnd1 & Hin1).
  destruct (IH _ _ _ Hothers) as (Hsrcs & [added2 ->] & Hnd2 & Hin2 & Hall).
  repeat split.
  - simpl. by rewrite Hsrc, Hsrcs.
  - exists (added1 ++ added2)%list. by rewrite app_assoc.
  - auto.
  - intros e t [->|He]%elem_of_cons Ht; [|by eapply Hin2].
    specialize (Hin1 t Ht). rewrite map_app. set_solver.
  - constructor; [by split | exact Hall].
Qed.

(** What a call of [mergeConfig] that returns has gone through. *)
Lemma mergeConfig_returns (C : ConfigPlatform) (cliFlags : CliFlags)
  (config : option VivliostyleConfig) (context : string) (m : MergedConfig) :
  mergeConfig C cliFlags config context = Returned m →
  ∃ pkgJson rootTheme,
    projectPackage C = Returned pkgJson ∧
    truthy (chosen_title cliFlags config pkgJson) = true ∧
    projectTitle m = default "" (chosen_title cliFlags config pkgJson) ∧
    mc_format m = default "pdf" (config ≫= vc_format) ∧
    truthy (chosen_outDir C cliFlags config context)
      && truthy (chosen_outFile C cliFlags config context) = false ∧
    outputPath m
      = (if truthy (chosen_outDir C cliFlags config context)
         then resolve2 C (default "" (chosen_outDir C cliFlags config context))
                (projectTitle m ++ "." ++ mc_format m)
         else default (resolve1 C (projectTitle m ++ "." ++ mc_format m))
                (chosen_outFile C cliFlags config context)) ∧
    (length (option_list rootTheme) ≤ 1)%nat ∧
    parseEntries C (entryContextDir m) (artifactDir m) (projectTitle m)
      (map normalizeEntry (rawEntries cliFlags config)) (option_list rootTheme)
    = Returned (entries m, themeIndexes m).
Proof.
  unfold mergeConfig. fold (chosen_outDir C cliFlags config context).
  fold (chosen_outFile C cliFlags config context).
  intros (pkgJson & Hpkg & Hrest)%Outcome_bind_Returned.
  fold (chosen_title cliFlags config pkgJson) in Hrest.
  destruct (truthy (chosen_title cliFlags config pkgJson)) eqn:Htitle; [|done].
  simpl negb in Hrest. cbn iota zeta in Hrest.
  destruct (truthy (chosen_outDir C cliFlags config context)
            && truthy (chosen_outFile C cliFlags config context)) eqn:Hout; [done|].
  apply Outcome_bind_Returned in Hrest as (size & _ & Hrest).
  apply Outcome_bind_Returned in Hrest as (fromFlags & _ & Hrest).
  apply Outcome_bind_Returned in Hrest as (rootTheme & _ & Hrest).
  apply Outcome_bind_Returned in Hrest as ([parsed themes] & Hentries & Hret).
  injection Hret as <-. simpl.
  exists pkgJson, rootTheme. repeat split; try done.
  destruct rootTheme; simpl; lia.
Qed.

(** X21: the project title is the [--title] flag, else the title of the
    configuration, else the name in [package.json], the first of them that
    is set at all.  When that one is missing or the empty string,
    [mergeConfig] throws [title not defined] before anything else is
    looked at: an empty [--title] hides a title given in the configuration.
    A merged configuration always has a non-empty title. *)
Theorem mergeConfig_title (C : ConfigPlatform) (cliFlags : CliFlags)
  (config : option VivliostyleConfig) (context : string)
  (pkgJson : option ProjectPackage) :
  projectPackage C = Returned pkgJson →
  (truthy (chosen_title cliFlags config pkgJson) = false →
   mergeConfig C cliFlags config context = Thrown (Error "title not defined")) ∧
  (cf_title cliFlags = Some "" →
   mergeConfig C cliFlags config context = Thrown (Error "title not defined")) ∧
  (∀ m, mergeConfig C cliFlags config context = Returned m →
        projectTitle m ≠ "" ∧
        chosen_title cliFlags config pkgJson = Some (projectTitle m)).
Proof.
  intros Hpkg.
  assert (Hthrow : truthy (chosen_title cliFlags config pkgJson) = false →
            mergeConfig C cliFlags config context = Thrown (Error "title not defined")).
  { intros Htitle. unfold mergeConfig. rewrite Hpkg. simpl.
    fold (chosen_title cliFlags config pkgJson). by rewrite Htitle. }
  split; [exact Hthrow|]. split.
  - intros Hflag. apply Hthrow. unfold chosen_title. by rewrite Hflag.
  - intros m (pkg' & root & Hpkg' & Htitle & Hproj & _)%mergeConfig_returns.
    rewrite Hpkg in Hpkg'. injection Hpkg' as <-.
    destruct (chosen_title cliFlags config pkgJson) as [t|]; [|done].
    simpl in Hproj. subst t. by apply truthy_Some in Htitle.
Qed.

Lemma mergeConfig_title_witness :
  projectPackage sample_config_platform
    = Returned (Some (mkProjectPackage (Some "book") None)) ∧
  cf_title flags_empty_title = Some "" ∧
  mergeConfig sample_config_platform flags_empty_title (Some config_two_entries) "/ctx"
  = Thrown (Error "title not defined").
Proof.
  split; [reflexivity|]. split; [reflexivity|].
  exact (proj1 (proj2 (mergeConfig_title sample_config_platform flags_empty_title
                         (Some config_two_entries) "/ctx" _ eq_refl))
           eq_refl).
Defined.

(** X22: where the output goes.  Once the title is settled, an output
    directory together with an output file is an error.  Otherwise, with an
    output directory the output path is [<title>.<format>] resolved in it;
    without one it is the output file as given, and failing that
    [<title>.<format>] resolved from the working directory. *)
Theorem mergeConfig_outputPath (C : ConfigPlatform) (cliFlags : CliFlags)
  (config : option VivliostyleConfig) (context : string)
  (pkgJson : option ProjectPackage) :
  projectPackage C = Returned pkgJson →
  truthy (chosen_title cliFlags config pkgJson) = true →
  let outDir := chosen_outDir C cliFlags config context in
  let outFile := chosen_outFile C cliFlags config context in
  (truthy outDir = true → truthy outFile = true →
   mergeConfig C cliFlags config context
   = Thrown (Error "outDir and outFile cannot be combined.")) ∧
  (∀ m, mergeConfig C cliFlags config context = Returned m →
        let outputFile := projectTitle m ++ "." ++ mc_format m in
        (∀ dir, outDir = Some dir → dir ≠ "" →
                outputPath m = resolve2 C dir outputFile) ∧
        (truthy outDir = false → ∀ file, outFile = Some file → outputPath m = file) ∧
        (truthy outDir = false → outFile = None →
         outputPath m = resolve1 C outputFile)).
Proof.
  intros Hpkg Htitle outDir outFile. subst outDir outFile. split.
  - intros Hdir Hfile. unfold mergeConfig. rewrite Hpkg. simpl.
    fold (chosen_title cliFlags config pkgJson). rewrite Htitle. simpl.
    fold (chosen_outDir C cliFlags config context).
    fold (chosen_outFile C cliFlags config context). by rewrite Hdir, Hfile.
  - intros m (pkg' & root & _ & _ & _ & _ & _ & Hpath & _)%mergeConfig_returns.
    cbn zeta. rewrite Hpath. repeat split.
    + intros dir Hdir Hne. rewrite Hdir. simpl. by rewrite decide_False.
    + intros Hdir file Hfile. by rewrite Hdir, Hfile.
    + intros Hdir Hfile. by rewrite Hdir, Hfile.
Qed.

Lemma mergeConfig_outputPath_witness :
  projectPackage sample_config_platform
    = Returned (Some (mkProjectPackage (Some "book") None)) ∧
  truthy (chosen_title flags_outDir_outFile None
            (Some (mkProjectPackage (Some "book") None))) = true ∧
  truthy (chosen_outDir sample_config_platform flags_outDir_outFile None "/ctx") = true ∧
  truthy (chosen_outFile sample_config_platform flags_outDir_outFile None "/ctx") = true ∧
  mergeConfig sample_config_platform flags_outDir_outFile None "/ctx"
  = Thrown (Error "outDir and outFile cannot be combined.").
Proof.
  split; [reflexivity|]. split; [reflexivity|]. split; [reflexivity|].
  split; [reflexivity|].
  exact (proj1 (mergeConfig_outputPath sample_config_platform flags_outDir_outFile
                  None "/ctx" _ eq_refl eq_refl) eq_refl eq_refl).
Defined.

(** X23: in a merged configuration no two themes of [themeIndexes] have
    the same location, and the theme of every entry is found in
    [themeIndexes] by its location. *)
Theorem mergeConfig_themeIndexes (C : ConfigPlatform) (cliFlags : CliFlags)
  (config : option VivliostyleConfig) (context : string) (m : MergedConfig) :
  mergeConfig C cliFlags config context = Returned m →
  NoDup (map location (themeIndexes m)) ∧
  (∀ e t, e ∈ entries m → pe_theme e = Some t →
          location t ∈ map location (themeIndexes m)).
Proof.
  intros (pkgJson & root & _ & _ & _ & _ & _ & _ & Hroot & Hentries)%mergeConfig_returns.
  destruct (parseEntries_returns _ _ _ _ _ _ _ _ Hentries) as (_ & _ & Hnd & Hin & _).
  split; [|exact Hin]. apply Hnd.
  destruct root; simpl; [apply NoDup_singleton | apply NoDup_nil_2].
Qed.

Lemma mergeConfig_themeIndexes_witness :
  ∃ m, mergeConfig sample_config_platform no_flags (Some config_two_entries) "/ctx"
       = Returned m ∧
       length (themeIndexes m) = 2 ∧
       NoDup (map location (themeIndexes m)).
Proof.
  eexists. split; [reflexivity|]. split; [reflexivity|].
  exact (proj1 (mergeConfig_themeIndexes sample_config_platform no_flags
                  (Some config_two_entries) "/ctx" _ eq_refl)).
Defined.

Lemma replace_md_not_md (s : string) : endsWith (replace_md s) ".md" = false.
Proof.
  unfold replace_md. destruct (endsWith s ".md") eqn:Hmd; [|exact Hmd].
  unfold endsWith, String.rev. by rewrite rev_app_append.
Qed.

(** X24: the entries of a merged configuration are the raw entries, one
    for one and in order, each with its path resolved in the entry context
    directory; when [--input] is given there is exactly one entry, the
    input, whatever the configuration lists.  Every entry has a title,
    which is its own title when it has one, and no target path ends in
    [.md]. *)
Theorem mergeConfig_entries (C : ConfigPlatform) (cliFlags : CliFlags)
  (config : option VivliostyleConfig) (context : string) (m : MergedConfig) :
  mergeConfig C cliFlags config context = Returned m →
  map source_path (entries m)
    = map (λ e, resolve2 C (entryContextDir m) (entry_path (normalizeEntry e)))
        (rawEntries cliFlags config) ∧
  (∀ input, cf_input cliFlags = Some input → input ≠ "" →
            map source_path (entries m) = [resolve2 C (entryContextDir m) input]) ∧
  Forall2 (λ raw e, ∃ text, pe_title e = Some text ∧
                      (∀ own, entry_title (normalizeEntry raw) = Some own → text = own))
    (rawEntries cliFlags config) (entries m) ∧
  Forall (λ e, endsWith (target_path e) ".md" = false) (entries m).
Proof.
  intros (pkgJson & root & _ & _ & _ & _ & _ & _ & _ & Hentries)%mergeConfig_returns.
  destruct (parseEntries_returns _ _ _ _ _ _ _ _ Hentries) as (Hsrc & _ & _ & _ & Hall).
  rewrite map_map in Hsrc. split; [exact Hsrc|]. split; [|split].
  - intros input Hinput Hne. rewrite Hsrc. unfold rawEntries. rewrite Hinput. simpl.
    by rewrite decide_False.
  - apply Forall2_fmap_l in Hall.
    eapply Forall2_impl; [exact Hall|]. by intros raw e [_ ?].
  - apply Forall2_Forall_r with (Q := λ e, endsWith (target_path e) ".md" = false)
      in Hall; [exact Hall|].
    apply Forall_forall. intros raw _ e [-> _]. apply replace_md_not_md.
Qed.

Lemma mergeConfig_entries_witness :
  ∃ m, mergeConfig sample_config_platform flags_input_theme (Some config_two_entries)
         "/ctx" = Returned m ∧
       map source_path (entries m) = ["/work/./ch1.md"] ∧
       map target_path (entries m) = ["/work/.vivliostyle/artifacts//work/./ch1.html"].
Proof.
  eexists. split; [reflexivity|]. split; [|reflexivity].
  exact (proj1 (proj2 (mergeConfig_entries sample_config_platform flags_input_theme
                         (Some config_two_entries) "/ctx" _ eq_refl))
           "ch1.md" eq_refl ltac:(done)).
Defined.
